(** * Payment gateway (server.js): amount resolution, configuration cache,
      event lookup and charge submission

    A shallow embedding of the request handlers of [server.js] and of the
    helpers they call.  JavaScript numbers are IEEE 754 binary64 values, which
    is what Rocq's primitive [float] is; their specification in terms of
    [SpecFloat] is used for the arithmetic facts. *)

From Stdlib Require Import ZArith List String Ascii Bool Lia Floats.
Import ListNotations.

Local Open Scope Z_scope.

(** ** JavaScript numbers *)

Module Number.

(** The Number value of a mathematical integer (round to nearest, ties to
    even, as everywhere in the language). *)
Definition ofZ (z : Z) : float :=
  SF2Prim (binary_normalize prec emax z 0 false).

(** The Number value of the decimal [(-1)^neg * M * 10^k] with [0 <= M]: the
    binary64 value nearest to it.  A negative power of ten is divided out
    with the remainder kept as a rounding location, so the quotient is
    rounded once. *)
Definition ofDecimal (neg : bool) (M k : Z) : float :=
  SF2Prim
    (if M =? 0 then S754_zero neg
     else if 0 <=? k then
       binary_normalize prec emax (cond_Zopp neg (M * 10 ^ k)) 0 neg
     else
       let '(q, e, l) := SFdiv_core_binary prec emax M 0 (10 ^ (- k)) 0 in
       binary_round_aux prec emax neg q e l).

(** [isNaN(x)] *)
Definition isNaN (x : float) : bool := PrimFloat.is_nan x.

(** [!x] for a number: [0], [-0] and [NaN] are falsy. *)
Definition falsy (x : float) : bool := PrimFloat.is_zero x || PrimFloat.is_nan x.

(** The mathematical value of a finite number is an integer. *)
Definition isInteger (x : float) : bool :=
  match Prim2SF x with
  | S754_zero _ => true
  | S754_finite _ m e => (0 <=? e) || (Zpos m mod 2 ^ (- e) =? 0)
  | _ => false
  end.

End Number.

Module Math.

(** [Math.round(x)]: [x] itself when it is not finite or already integral;
    otherwise the integer nearest to [x], the one towards +infinity on a tie,
    that is [floor(x + 1/2)] computed exactly; a result of zero keeps the
    sign of [x]. *)
Definition round (x : float) : float :=
  match Prim2SF x with
  | S754_finite s m e =>
      if 0 <=? e then x
      else
        let n := (cond_Zopp s (Zpos m) + 2 ^ (- e - 1)) / 2 ^ (- e) in
        if n =? 0 then (if s then neg_zero else zero) else Number.ofZ n
  | _ => x
  end.

End Math.

(** ** Strings: [parseFloat] *)

Local Open Scope string_scope.

(** A string holds its text in UTF-8, one byte per [ascii], which is how a
    string literal of this file is read; so a code point above U+007F takes
    two or three bytes. *)
Definition byte (c : ascii) : Z := Z.of_nat (nat_of_ascii c).

(** The code points [parseFloat] skips at the start of its argument are the
    WhiteSpace and LineTerminator of the language.  Those of one byte: TAB,
    LF, VT, FF, CR and the space. *)
Definition isWhiteSpace (c : ascii) : bool :=
  let n := byte c in
  ((9 <=? n) && (n <=? 13) || (n =? 32))%Z.

(** Of two bytes: U+00A0, the no-break space ([C2 A0]). *)
Definition isWhiteSpace2 (c0 c1 : ascii) : bool :=
  ((byte c0 =? 194) && (byte c1 =? 160))%Z.

(** Of three bytes: U+1680 ([E1 9A 80]); U+2000 to U+200A, the line and
    paragraph separators U+2028 and U+2029, and U+202F ([E2 80 80] to
    [E2 80 8A], [E2 80 A8], [E2 80 A9], [E2 80 AF]); U+205F ([E2 81 9F]);
    U+3000 ([E3 80 80]); and U+FEFF, the byte order mark ([EF BB BF]). *)
Definition isWhiteSpace3 (c0 c1 c2 : ascii) : bool :=
  let '(a, b, c) := (byte c0, byte c1, byte c2) in
  ((a =? 225) && (b =? 154) && (c =? 128)
   || (a =? 226) && (b =? 128)
      && ((128 <=? c) && (c <=? 138) || (c =? 168) || (c =? 169) || (c =? 175))
   || (a =? 226) && (b =? 129) && (c =? 159)
   || (a =? 227) && (b =? 128) && (c =? 128)
   || (a =? 239) && (b =? 187) && (c =? 191))%Z.

Fixpoint trimStart (s : string) : string :=
  match s with
  | String c0 r0 =>
      if isWhiteSpace c0 then trimStart r0
      else
        match r0 with
        | String c1 r1 =>
            if isWhiteSpace2 c0 c1 then trimStart r1
            else
              match r1 with
              | String c2 r2 =>
                  if isWhiteSpace3 c0 c1 c2 then trimStart r2 else s
              | EmptyString => s
              end
        | EmptyString => s
        end
  | EmptyString => s
  end.

Definition digitValue (c : ascii) : option Z :=
  let n := Z.of_nat (nat_of_ascii c) in
  if ((48 <=? n) && (n <=? 57))%Z then Some (n - 48) else None.

(** The longest run of decimal digits at the start of [s], read onto the
    value [acc]: the new value, the number of digits read and the rest. *)
Fixpoint readDigits (s : string) (acc n : Z) : Z * Z * string :=
  match s with
  | String c r =>
      match digitValue c with
      | Some d => readDigits r (10 * acc + d) (n + 1)
      | None => (acc, n, s)
      end
  | EmptyString => (acc, n, s)
  end.

Definition readSign (s : string) : bool * string :=
  match s with
  | String "-" r => (true, r)
  | String "+" r => (false, r)
  | _ => (false, s)
  end.

(** The exponent part [e[+-]digits], when there is a complete one. *)
Definition readExponent (s : string) : Z :=
  match s with
  | String c r =>
      if (Ascii.eqb c "e" || Ascii.eqb c "E")%bool then
        let '(neg, r1) := readSign r in
        let '(v, n, _) := readDigits r1 0 0 in
        if (n =? 0)%Z then 0 else cond_Zopp neg v
      else 0
  | EmptyString => 0
  end.

(** [parseFloat(s)]: the Number value of the longest prefix of the trimmed
    string that is a decimal literal, [NaN] when there is none. *)
Definition parseFloat (s : string) : float :=
  let '(neg, r) := readSign (trimStart s) in
  if String.prefix "Infinity" r then (if neg then neg_infinity else infinity)
  else
    let '(ip, ni, r1) := readDigits r 0 0 in
    let '(M, nf, r2) :=
      match r1 with
      | String "." rf => readDigits rf ip 0
      | _ => (ip, 0, r1)
      end in
    if ((ni =? 0) && (nf =? 0))%Z then nan
    else Number.ofDecimal neg M (readExponent r2 - nf).


(** ** Values exchanged with the outside *)

(** JSON values, as [res.json] sends them. *)
#[local] Set Warnings "-register-all".
Inductive json :=
| JNull
| JBool (b : bool)
| JNum (x : float)
| JStr (s : string)
| JArr (l : list json)
| JObj (fields : list (string * json)).

(** [o[k]] on an object: [None] is [undefined]. *)
Definition property (k : string) (o : json) : option json :=
  match o with
  | JObj fields =>
      option_map snd (find (fun kv => String.eqb (fst kv) k) fields)
  | _ => None
  end.

(** An [Error] object: every error has a [message]; the processor's errors
    also have a [type]. *)
Record Error := { type : option string; message : string }.

(** The remote configuration document.  [t] is a document read through the
    members the code reads, each of them optional and a string when there.
    [value] is what [JSON.parse] may give for the document, and so what
    [CONFIG] may hold: [null]; another value that is falsy, that is [false],
    [0] or the empty string; or any other value, which the code reads
    through its members (an array or a primitive has none of them). *)
Module Config.
Record Stripe := { publishableKey : option string; secretKey : option string }.
Record Endpoints := { eventsUrl : option string; redirectUrl : option string }.
Record t := { stripe : option Stripe; endpoints : option Endpoints }.

Inductive value :=
| null
| falsy
| object (c : t).

(** [CONFIG ? ... : ...], and [!CONFIG] negated. *)
Definition truthy (v : value) : bool :=
  match v with
  | object _ => true
  | null | falsy => false
  end.
End Config.

(** An entry of the event catalog. *)
Module Event.
Record t := {
  eventId : string;
  eventName : string;
  eventDescription : string;
  cost : float
}.

Definition toJSON (e : t) : json :=
  JObj [("eventId", JStr (eventId e)); ("eventName", JStr (eventName e));
        ("eventDescription", JStr (eventDescription e)); ("cost", JNum (cost e))].
End Event.

(** The body of [POST /process-payment] after [bodyParser.json()], with its
    members typed as the page sends them, five strings and a number; [None]
    is a member that is absent or [null].  A body with a member of another
    type, an amount that is a string for one, is not of this shape, and what
    is proved of the handler is proved for bodies of this shape. *)
Module Req.
Record t := {
  token : option string;
  eventId : option string;
  name : option string;
  email : option string;
  phone : option string;
  amount : option float
}.
End Req.

(** The argument of [stripe.charges.create]. *)
Module Params.
Record Metadata := {
  eventId : string;
  eventName : string;
  customerName : string;
  customerEmail : string;
  customerPhone : string;
  processed_at : string
}.
Record t := {
  amount : float;
  currency : string;
  description : string;
  source : string;
  metadata : Metadata;
  receipt_email : string;
  statement_descriptor : string
}.
End Params.

(** The charge object the processor returns. *)
Module Charge.
Record t := { status : string; id : string; receipt_url : option string }.
End Charge.

(** What the checkout template interpolates into the page it renders. *)
Module Checkout.
Record t := {
  backUrl : string;
  eventName : string;
  eventDescription : string;
  customAmountNote : option float;  (* [customPay ? ... eventCost ... : ''] *)
  eventCost : float;                (* the displayed price *)
  publishableKey : option string;   (* [Stripe('${publishableKey}')] *)
  eventId : string;                 (* [eventId: '${eventId}'] in the script *)
  amount : float                    (* [amount: ${eventCost * 100}] in the script *)
}.
End Checkout.

(** A page of fixed markup, given by its visible text and its back link. *)
Record MessagePage := { heading : string; paragraph : string; backLink : string }.

Inductive Body :=
| Json (j : json)
| Message (p : MessagePage)
| Page (c : Checkout.t).

Record Response := { statusCode : Z; body : Body }.

(** ** The outside world and the process state *)

(** The settlement of a promise. *)
Inductive Settled (A : Type) :=
| Resolves (a : A)
| Rejects (e : Error).
Arguments Resolves {A} a.
Arguments Rejects {A} e.

(** Calls that leave the process. *)
Inductive Effect :=
| HttpsGet (url : string)
| ChargesCreate (p : Params.t).

(** The environment a run of the server meets: what each outbound call
    settles to when it is made after [n] earlier outbound calls, the clock and
    the process environment.  A document that is fetched and parsed is given
    already as the value it denotes; a transport failure or a body that is not
    JSON is a rejection.  Every call is taken to settle: [https.get] is given
    no timeout, and a call that never settled would leave its request without
    an answer, which is not modelled. *)
Record World := {
  configDocument : nat -> Settled Config.value;
  eventsDocument : string -> nat -> Settled (list Event.t);
  processor : Params.t -> nat -> Settled Charge.t;
  toISOString : nat -> string;                      (* [new Date().toISOString()] *)
  STRIPE_PUBLISHABLE_KEY : option string;           (* [process.env] *)
  STRIPE_SECRET_KEY : option string
}.

(** The module-level variables, [app.locals] and the outbound calls made so
    far (most recent first). *)
Record State := {
  CONFIG : Config.value;
  stripe : option string;            (* the client, known by its secret key *)
  stripePublishableKey : option string;
  exited : option Z;                 (* [process.exit(code)] *)
  trace : list Effect
}.

Definition initial : State :=
  {| CONFIG := Config.null; stripe := None; stripePublishableKey := None;
     exited := None; trace := [] |}.

(** ** Asynchronous code: state and exceptions *)

Inductive Outcome (A : Type) :=
| Returns (a : A)
| Throws (e : Error).
Arguments Returns {A} a.
Arguments Throws {A} e.

Definition M (A : Type) : Type := State -> Outcome A * State.

Definition ret {A} (a : A) : M A := fun s => (Returns a, s).

Definition throw {A} (e : Error) : M A := fun s => (Throws e, s).

Definition bind {A B} (m : M A) (k : A -> M B) : M B :=
  fun s =>
    match m s with
    | (Returns a, s') => k a s'
    | (Throws e, s') => (Throws e, s')
    end.

(** [try { m } catch (error) { h }] *)
Definition try_catch {A} (m : M A) (h : Error -> M A) : M A :=
  fun s =>
    match m s with
    | (Returns a, s') => (Returns a, s')
    | (Throws e, s') => h e s'
    end.

Definition get : M State := fun s => (Returns s, s).

Definition put (s : State) : M unit := fun _ => (Returns tt, s).

(** The state once an outbound call has been made. *)
Definition record (call : Effect) (s : State) : State :=
  {| CONFIG := CONFIG s; stripe := stripe s;
     stripePublishableKey := stripePublishableKey s;
     exited := exited s; trace := call :: trace s |}.

(** [await p] for an outbound call: the call is recorded, then the promise
    settles. *)
Definition await {A} (call : Effect) (p : nat -> Settled A) : M A :=
  fun s =>
    match p (List.length (trace s)) with
    | Resolves a => (Returns a, record call s)
    | Rejects e => (Throws e, record call s)
    end.

Declare Scope js_scope.
Delimit Scope js_scope with js.
Notation "x <- m ;; k" := (bind m (fun x => k))
  (at level 61, m at next level, right associativity) : js_scope.
Notation "m ;; k" := (bind m (fun _ => k))
  (at level 61, right associativity) : js_scope.

(** [a || b] on strings that may be [undefined]: the first that is neither
    [undefined] nor empty. *)
Definition truthy (o : option string) : bool :=
  match o with
  | Some s => negb (String.eqb s "")
  | None => false
  end.

Definition either (a b : option string) : option string :=
  if truthy a then a else b.

Definition orElse (a : option string) (b : string) : string :=
  match a with
  | Some s => if String.eqb s "" then b else s
  | None => b
  end.

(** ** The server *)

Module Keys.
Record t := { publishableKey : string; secretKey : string }.
End Keys.

Definition configUrl : string :=
  "https://raw.githubusercontent.com/BeeBotix/researchsummits_Webpage/refs/heads/main/stripe-config.json".

Definition defaultEventsUrl : string :=
  "https://raw.githubusercontent.com/BeeBotix/researchsummits_Webpage/refs/heads/main/events.json".

Definition defaultRedirectUrl : string := "http://researchsummits.com/index.html".

(** [CONFIG = { stripe: {} }] *)
Definition fallbackConfig : Config.t :=
  {| Config.stripe := Some {| Config.publishableKey := None; Config.secretKey := None |};
     Config.endpoints := None |}.

(** [c.stripe?.publishableKey] and its like for a [c] that is not [null],
    and [c?.endpoints?.eventsUrl] and its like for any [c]: a member of a
    member, [undefined] when there is none. *)
Definition stripe_publishableKey (c : Config.value) : option string :=
  match c with
  | Config.object {| Config.stripe := Some st |} => Config.publishableKey st
  | _ => None
  end.

Definition stripe_secretKey (c : Config.value) : option string :=
  match c with
  | Config.object {| Config.stripe := Some st |} => Config.secretKey st
  | _ => None
  end.

Definition endpoints_eventsUrl (c : Config.value) : option string :=
  match c with
  | Config.object {| Config.endpoints := Some ep |} => Config.eventsUrl ep
  | _ => None
  end.

Definition endpoints_redirectUrl (c : Config.value) : option string :=
  match c with
  | Config.object {| Config.endpoints := Some ep |} => Config.redirectUrl ep
  | _ => None
  end.

(** [CONFIG?.endpoints?.redirectUrl || 'http://researchsummits.com/index.html'] *)
Definition redirectUrl (s : State) : string :=
  orElse (endpoints_redirectUrl (CONFIG s)) defaultRedirectUrl.

(** [CONFIG?.endpoints?.eventsUrl || 'https://.../events.json'] *)
Definition eventsUrl (s : State) : string :=
  orElse (endpoints_eventsUrl (CONFIG s)) defaultEventsUrl.

Definition setCONFIG (c : Config.value) : M unit :=
  fun s =>
    (Returns tt,
     {| CONFIG := c; stripe := stripe s;
        stripePublishableKey := stripePublishableKey s;
        exited := exited s; trace := trace s |}).

(** [res.status(code).json({...})] and [res.status(code).send(html)] *)
Definition res_json (code : Z) (fields : list (string * json)) : Response :=
  {| statusCode := code; body := Json (JObj fields) |}.

Definition res_send (code : Z) (h p back : string) : Response :=
  {| statusCode := code;
     body := Message {| heading := h; paragraph := p; backLink := back |} |}.

(** [String(v)] of a query value that may be [undefined]. *)
Definition toString (o : option string) : string :=
  match o with
  | Some s => s
  | None => "undefined"
  end.

(** [{ success: false, error: ... }] with a status. *)
Definition failure (code : Z) (error : string) : Response :=
  res_json code [("success", JBool false); ("error", JStr error)].

Definition missingFields : Response := failure 400 "Missing required fields".

Definition amountTooSmall : Response := failure 400 "Amount too small".

Definition eventNotFound : Response := failure 404 "Conference event not found".

Definition notSuccessful : Response := failure 400 "Payment was not successful".

Definition eventsUnavailable : Response :=
  failure 500 "Unable to fetch conference events".

Definition eventUnavailable : Response :=
  failure 500 "Unable to fetch conference details".

Definition receiptUrl (c : Charge.t) : json :=
  match Charge.receipt_url c with
  | Some u => JStr u
  | None => JNull
  end.

Definition succeeded (charge : Charge.t) : Response :=
  res_json 200 [("success", JBool true);
                ("chargeId", JStr (Charge.id charge));
                ("receiptUrl", receiptUrl charge)].

(** The [catch] block of [/process-payment]: the message sent back for an
    error. *)
Definition errorMessage (error : Error) : string :=
  match type error with
  | Some t =>
      if String.eqb t "StripeCardError" then message error
      else if String.eqb t "StripeInvalidRequestError" then
        "Invalid payment information"
      else if String.eqb t "StripeAPIError" then
        "Payment service temporarily unavailable"
      else "Payment failed. Please try again."
  | None => "Payment failed. Please try again."
  end.

Definition paymentFailed (error : Error) : Response :=
  failure 400 (errorMessage error).

(** [!v] fails: the member is there and is neither empty nor zero. *)
Definition present (o : option string) : option string :=
  if truthy o then o else None.

Definition presentNumber (o : option float) : option float :=
  match o with
  | Some x => if Number.falsy x then None else Some x
  | None => None
  end.

(** The charge [/process-payment] asks the processor for. *)
Definition chargeParams (token eventId name email phone : string) (amount : float)
    (event : Event.t) (processed_at : string) : Params.t :=
  {| Params.amount := Math.round amount;
     Params.currency := "usd";
     Params.description := "Research Summit Registration: " ++ Event.eventName event;
     Params.source := token;
     Params.metadata :=
       {| Params.eventId := eventId;
          Params.eventName := Event.eventName event;
          Params.customerName := name;
          Params.customerEmail := email;
          Params.customerPhone := phone;
          Params.processed_at := processed_at |};
     Params.receipt_email := email;
     Params.statement_descriptor := "RESEARCH SUMMITS" |}.

Section Server.

Variable W : World.

Local Open Scope js_scope.

(** [loadConfig] and [loadEvents]: one GET, the body parsed as JSON. *)
Definition loadConfig : M Config.value :=
  await (HttpsGet configUrl) (configDocument W).

(** [getStripeConfig].  Whatever the fetch gives is assigned to [CONFIG],
    and [CONFIG.stripe] in the object returned throws a [TypeError] when that
    is [null]. *)
Definition getStripeConfig : M Keys.t :=
  s <- get ;;
  (if Config.truthy (CONFIG s) then ret tt
   else
     try_catch (c <- loadConfig ;; setCONFIG c)
               (fun error => setCONFIG (Config.object fallbackConfig))) ;;
  s <- get ;;
  match CONFIG s with
  | Config.null =>
      throw {| type := None;
               message := "Cannot read properties of null (reading 'stripe')" |}
  | _ =>
      ret {| Keys.publishableKey :=
               orElse (either (stripe_publishableKey (CONFIG s))
                              (STRIPE_PUBLISHABLE_KEY W))
                      "pk_test_fallback";
             Keys.secretKey :=
               orElse (either (stripe_secretKey (CONFIG s)) (STRIPE_SECRET_KEY W))
                      "sk_test_fallback" |}
  end.

Definition loadEvents : M (list Event.t) :=
  s <- get ;;
  let url := eventsUrl s in
  await (HttpsGet url) (eventsDocument W url).

(** [initializeApp], which [startServer] awaits before it listens. *)
Definition initializeApp : M unit :=
  try_catch
    (stripeConfig <- getStripeConfig ;;
     s <- get ;;
     put {| CONFIG := CONFIG s;
            stripe := Some (Keys.secretKey stripeConfig);
            stripePublishableKey := Some (Keys.publishableKey stripeConfig);
            exited := exited s; trace := trace s |})
    (fun error =>
       s <- get ;;
       put {| CONFIG := CONFIG s; stripe := stripe s;
              stripePublishableKey := stripePublishableKey s;
              exited := Some 1%Z; trace := trace s |}).

(** [events.find(e => e.eventId === eventId)] *)
Definition findEvent (events : list Event.t) (eventId : string) : option Event.t :=
  find (fun e => String.eqb (Event.eventId e) eventId) events.

(** *** [GET /payment/:eventId] *)

Definition invalidAmount (s : State) : Response :=
  res_send 400 "Invalid Payment Amount" "Please provide a valid payment amount."
       (redirectUrl s).

Definition amountOutOfRange (s : State) : Response :=
  res_send 400 "Invalid Payment Amount" "Payment amount must be between $1 and $10,000."
       (redirectUrl s).

Definition conferenceNotFound (s : State) : Response :=
  res_send 404 "404" "The requested conference event was not found." (redirectUrl s).

Definition errorLoadingPage (s : State) : Response :=
  res_send 500 "Error Loading Payment Page"
       "Unable to load event data. Please try again later." (redirectUrl s).

(** [res.send(html)] with the template filled in. *)
Definition checkout (s : State) (eventId : string) (event : Event.t)
    (customPay : option string) (eventCost : float) : Response :=
  {| statusCode := 200;
     body := Page {| Checkout.backUrl := redirectUrl s;
                     Checkout.eventName := Event.eventName event;
                     Checkout.eventDescription := Event.eventDescription event;
                     Checkout.customAmountNote :=
                       if truthy customPay then Some eventCost else None;
                     Checkout.eventCost := eventCost;
                     Checkout.publishableKey := stripePublishableKey s;
                     Checkout.eventId := eventId;
                     Checkout.amount := (eventCost * 100)%float |} |}.

(** [app.get('/payment/:eventId', ...)].  [pay] is [req.query.pay] for a
    request with at most one [pay] parameter: [None] when there is none, the
    decoded text otherwise, which is empty for [?pay=].  Console output is
    left out. *)
Definition payment_page (eventId : string) (pay : option string) : M Response :=
  try_catch
    (events <- loadEvents ;;
     s <- get ;;
     match findEvent events eventId with
     | None => ret (conferenceNotFound s)
     | Some event =>
         let customPay := pay in
         let eventCost := Event.cost event in
         if truthy customPay then
           let customAmount := parseFloat (toString customPay) in
           if Number.isNaN customAmount || (customAmount <=? 0)%float then
             ret (invalidAmount s)
           else if (customAmount <? 1)%float || (10000 <? customAmount)%float then
             ret (amountOutOfRange s)
           else
             let eventCost := customAmount in
             ret (checkout s eventId event customPay eventCost)
         else ret (checkout s eventId event customPay eventCost)
     end)
    (fun error => s <- get ;; ret (errorLoadingPage s)).

(** *** [POST /process-payment] *)

(** [stripe.charges.create(p)]; [stripe] is [null] until [initializeApp]
    has run. *)
Definition charges_create (p : Params.t) : M Charge.t :=
  s <- get ;;
  match stripe s with
  | None =>
      throw {| type := None;
               message := "Cannot read properties of null (reading 'charges')" |}
  | Some _ => await (ChargesCreate p) (processor W p)
  end.

(** [app.post('/process-payment', ...)] *)
Definition process_payment (body : Req.t) : M Response :=
  try_catch
    (match present (Req.token body), present (Req.eventId body),
           present (Req.name body), present (Req.email body),
           present (Req.phone body), presentNumber (Req.amount body) with
     | Some token, Some eventId, Some name, Some email, Some phone, Some amount =>
         if (amount <? 50)%float then ret amountTooSmall
         else
           events <- loadEvents ;;
           match findEvent events eventId with
           | None => ret eventNotFound
           | Some event =>
               s <- get ;;
               charge <- charges_create
                 (chargeParams token eventId name email phone amount event
                    (toISOString W (List.length (trace s)))) ;;
               if String.eqb (Charge.status charge) "succeeded" then
                 ret (succeeded charge)
               else ret notSuccessful
           end
     | _, _, _, _, _, _ => ret missingFields
     end)
    (fun error => ret (paymentFailed error)).

(** *** [GET /api/events] and [GET /api/events/:eventId] *)

(** [app.get('/api/events', ...)] *)
Definition api_events : M Response :=
  try_catch
    (events <- loadEvents ;;
     ret (res_json 200 [("success", JBool true);
                        ("events", JArr (map Event.toJSON events));
                        ("total", JNum (Number.ofZ (Z.of_nat (List.length events))))]))
    (fun error => ret eventsUnavailable).

(** [app.get('/api/events/:eventId', ...)] *)
Definition api_event (eventId : string) : M Response :=
  try_catch
    (events <- loadEvents ;;
     match findEvent events eventId with
     | None => ret eventNotFound
     | Some event =>
         ret (res_json 200 [("success", JBool true);
                            ("event", Event.toJSON event)])
     end)
    (fun error => ret eventUnavailable).

End Server.

(** ** The script of the checkout page *)

(** The number a script gets from the text [${x}] of a number: [x] itself,
    [-0] being written [0]. *)
Definition literal (x : float) : float :=
  if PrimFloat.is_zero x then zero else x.

(** [JSON.stringify] followed by [JSON.parse] on a number: [NaN] and the
    infinities become [null]. *)
Definition overJSON (x : float) : option float :=
  if PrimFloat.is_finite x then Some x else None.

(** The body the page posts to [/process-payment] once the card has been
    tokenised and the form filled in. *)
Definition submitForm (c : Checkout.t) (token fullName email phone : string) : Req.t :=
  {| Req.token := Some token;
     Req.eventId := Some (Checkout.eventId c);
     Req.name := Some fullName;
     Req.email := Some email;
     Req.phone := Some phone;
     Req.amount := overJSON (literal (Checkout.amount c)) |}.

(** ** Running handlers *)

Definition response {A} (r : Outcome A * State) : option A :=
  match fst r with
  | Returns a => Some a
  | Throws _ => None
  end.

Definition isCharge (e : Effect) : bool :=
  match e with
  | ChargesCreate _ => true
  | HttpsGet _ => false
  end.

(** The charges submitted to the processor in a history of outbound calls. *)
Definition charges (t : list Effect) : list Effect := filter isCharge t.

Definition isConfigFetch (e : Effect) : bool :=
  match e with
  | HttpsGet url => String.eqb url configUrl
  | ChargesCreate _ => false
  end.

(** The number of fetches of the configuration document. *)
Definition configFetches (t : list Effect) : nat := List.length (filter isConfigFetch t).

(** ** A concrete run *)

(** The catalog entry of the usage notes ([/payment/RS2025AI?pay=450]). *)
Definition RS2025AI : Event.t :=
  {| Event.eventId := "RS2025AI";
     Event.eventName := "AI Research Summit 2025";
     Event.eventDescription := "Annual summit on artificial intelligence research";
     Event.cost := 299 |}.

Definition ch_123 : Charge.t :=
  {| Charge.status := "succeeded"; Charge.id := "ch_123";
     Charge.receipt_url := Some "https://pay.stripe.com/receipts/ch_123" |}.

(** A world in which the configuration cannot be fetched, the catalog holds
    the one event above, and the processor settles every charge as [reply]
    says. *)
Definition world (reply : Settled Charge.t) : World :=
  {| configDocument := fun _ =>
       Rejects {| type := None; message := "getaddrinfo ENOTFOUND raw.githubusercontent.com" |};
     eventsDocument := fun _ _ => Resolves [RS2025AI];
     processor := fun _ _ => reply;
     toISOString := fun _ => "2025-01-01T00:00:00.000Z";
     STRIPE_PUBLISHABLE_KEY := None;
     STRIPE_SECRET_KEY := None |}.

Definition W0 : World := world (Resolves ch_123).


(** The state in which the server starts to listen. *)
Definition started (W : World) : State := snd (initializeApp W initial).

(** A complete form for the event above, with the amount left open. *)
Definition request (amount : option float) : Req.t :=
  {| Req.token := Some "tok_visa"; Req.eventId := Some "RS2025AI";
     Req.name := Some "Ada Lovelace"; Req.email := Some "ada@example.org";
     Req.phone := Some "+44 20 7946 0000"; Req.amount := amount |}.

(** [n] calls of [getStripeConfig] one after the other, each awaited before
    the next: the state they leave and what the last one returned. *)
Fixpoint calls (W : World) (n : nat) (s : State) : State :=
  match n with
  | O => s
  | S k => calls W k (snd (getStripeConfig W s))
  end.

(** The request lacks a member [/process-payment] requires: the member is
    absent or [null], or it is the empty string, or the amount is [0], [-0]
    or [NaN]. *)
Definition incomplete (body : Req.t) : Prop :=
  present (Req.token body) = None \/ present (Req.eventId body) = None \/
  present (Req.name body) = None \/ present (Req.email body) = None \/
  present (Req.phone body) = None \/ presentNumber (Req.amount body) = None.

(** The request has every member, with these values. *)
Definition complete (body : Req.t) (token eventId name email phone : string)
    (amount : float) : Prop :=
  present (Req.token body) = Some token /\
  present (Req.eventId body) = Some eventId /\
  present (Req.name body) = Some name /\
  present (Req.email body) = Some email /\
  present (Req.phone body) = Some phone /\
  presentNumber (Req.amount body) = Some amount.

(** A member of the JSON object a response carries. *)
Definition member (k : string) (r : Response) : option json :=
  match body r with
  | Json j => property k j
  | _ => None
  end.

(** A charge the processor did not settle. *)
Definition ch_456 : Charge.t :=
  {| Charge.status := "pending"; Charge.id := "ch_456"; Charge.receipt_url := None |}.

(** Errors the processor raises. *)
Definition cardDeclined : Error :=
  {| type := Some "StripeCardError"; message := "Your card was declined." |}.

Definition cardError (message : string) : Error :=
  {| type := Some "StripeCardError"; message := message |}.

Definition invalidRequest : Error :=
  {| type := Some "StripeInvalidRequestError";
     message := "No such token: tok_visa" |}.

(** ** The other routes, and the server as a whole *)

(** What a handler does with [res]: it sends a response, redirects, or sends
    the page of [/success], which is fixed markup around a transaction number
    and a back link. *)
Inductive Answer :=
| Sent (r : Response)
| Redirect (location : string)
| SuccessPage (transaction : Z) (backUrl : string).

(** [{ success: false, error: 'Internal server error' }] of the error
    middleware. *)
Definition internalServerError : Response := failure 500 "Internal server error".

Section Routes.

Variable W : World.

Local Open Scope js_scope.

(** [app.get('/', ...)]: [res.redirect(redirectUrl)] *)
Definition home : M Answer :=
  s <- get ;;
  ret (Redirect (redirectUrl s)).

(** [app.get('/success', ...)]; [now] is what [Date.now()] gives when the
    request is handled. *)
Definition success_page (now : Z) : M Answer :=
  s <- get ;;
  ret (SuccessPage now (redirectUrl s)).

(** [app.get('/api/health', ...)] *)
Definition api_health : M Response :=
  s <- get ;;
  ret (res_json 200
         [("status", JStr "healthy");
          ("timestamp", JStr (toISOString W (List.length (trace s))));
          ("service", JStr "Research Summits Payment Gateway");
          ("version", JStr "1.0.0");
          ("config", JStr (if Config.truthy (CONFIG s) then "loaded"
                           else "not_loaded"));
          ("usage", JObj [("payment_default", JStr "/payment/RS2025AI");
                          ("payment_custom", JStr "/payment/RS2025AI?pay=450");
                          ("events_api", JStr "/api/events");
                          ("event_details", JStr "/api/events/RS2025AI")])]).

(** [app.use('*', ...)]: the page for a request no route matches. *)
Definition not_found : M Response :=
  s <- get ;;
  ret (res_send 404 "404" "The page you're looking for doesn't exist." (redirectUrl s)).

(** A request, once routed. *)
Inductive Request :=
| GetHome
| GetPayment (eventId : string) (pay : option string)
| GetSuccess (now : Z)
| PostProcessPayment (body : Req.t)
| GetApiEvents
| GetApiEvent (eventId : string)
| GetApiHealth
| Unmatched.

Definition sent (m : M Response) : M Answer :=
  r <- m ;; ret (Sent r).

Definition handle (req : Request) : M Answer :=
  match req with
  | GetHome => home
  | GetPayment eventId pay => sent (payment_page W eventId pay)
  | GetSuccess now => success_page now
  | PostProcessPayment body => sent (process_payment W body)
  | GetApiEvents => sent (api_events W)
  | GetApiEvent eventId => sent (api_event W eventId)
  | GetApiHealth => sent api_health
  | Unmatched => sent not_found
  end.

(** Requests handled one after the other: the answers, in order, and the
    state left.  A handler that threw would leave its request unanswered. *)
Fixpoint serve (reqs : list Request) (s : State) : list (Outcome Answer) * State :=
  match reqs with
  | [] => ([], s)
  | req :: rest =>
      let (a, s1) := handle req s in
      let (answers, s2) := serve rest s1 in
      (a :: answers, s2)
  end.

(** [startServer]: [initializeApp], then [app.listen]; an error exits the
    process with code 1. *)
Definition startServer : M unit :=
  try_catch (initializeApp W)
    (fun error =>
       s <- get ;;
       put {| CONFIG := CONFIG s; stripe := stripe s;
              stripePublishableKey := stripePublishableKey s;
              exited := Some 1%Z; trace := trace s |}).

(** The life of the process: it starts, and unless it has exited it serves
    the requests that come. *)
Definition lifetime (reqs : list Request) : list (Outcome Answer) * State :=
  let s := snd (startServer initial) in
  match exited s with
  | Some _ => ([], s)
  | None => serve reqs s
  end.

(** *** [getStripeConfig] in two steps *)

(** The object [getStripeConfig] returns, read off [CONFIG]. *)
Definition stripeKeys (s : State) : Keys.t :=
  {| Keys.publishableKey :=
       orElse (either (stripe_publishableKey (CONFIG s)) (STRIPE_PUBLISHABLE_KEY W))
              "pk_test_fallback";
     Keys.secretKey :=
       orElse (either (stripe_secretKey (CONFIG s)) (STRIPE_SECRET_KEY W))
              "sk_test_fallback" |}.

(** A call runs up to its [await]: with a [CONFIG] that is truthy it
    returns at once; otherwise the GET is issued and the call is suspended
    until the fetch settles. *)
Definition getStripeConfig_begin (s : State)
    : (Keys.t + Settled Config.value) * State :=
  if Config.truthy (CONFIG s) then (inl (stripeKeys s), s)
  else
    (inr (configDocument W (List.length (trace s))), record (HttpsGet configUrl) s).

(** The call resumes when its fetch has settled: [CONFIG] is assigned the
    document, or the fallback in the [catch], and the keys are returned,
    unless [CONFIG] is now [null]. *)
Definition getStripeConfig_resume (settled : Settled Config.value) (s : State)
    : Outcome Keys.t * State :=
  let c := match settled with
           | Resolves c => c
           | Rejects _ => Config.object fallbackConfig
           end in
  let s' := {| CONFIG := c; stripe := stripe s;
               stripePublishableKey := stripePublishableKey s;
               exited := exited s; trace := trace s |} in
  match c with
  | Config.null =>
      (Throws {| type := None;
                 message := "Cannot read properties of null (reading 'stripe')" |},
       s')
  | _ => (Returns (stripeKeys s'), s')
  end.

End Routes.

(** A world whose catalog is empty at first and holds the event [RS2025AI]
    from the second outbound call on. *)
Definition worldWithLateEvent : World :=
  {| configDocument := fun _ =>
       Rejects {| type := None; message := "getaddrinfo ENOTFOUND raw.githubusercontent.com" |};
     eventsDocument := fun _ n =>
       match n with
       | O | S O => Resolves []
       | _ => Resolves [RS2025AI]
       end;
     processor := fun _ _ => Resolves ch_123;
     toISOString := fun _ => "2025-01-01T00:00:00.000Z";
     STRIPE_PUBLISHABLE_KEY := None;
     STRIPE_SECRET_KEY := None |}.

(** What every charge the server submits is like. *)
Definition wellFormed (p : Params.t) : Prop :=
  Params.currency p = "usd" /\
  Params.statement_descriptor p = "RESEARCH SUMMITS" /\
  Params.source p <> EmptyString /\
  Params.receipt_email p = Params.customerEmail (Params.metadata p) /\
  Params.receipt_email p <> EmptyString /\
  Number.isNaN (Params.amount p) = false /\
  (Params.amount p <? 50)%float = false /\
  (is_finite (Params.amount p) = true -> Number.isInteger (Params.amount p) = true).

(** The state once further outbound calls have been made, the latest
    first. *)
Definition after (new : list Effect) (s : State) : State :=
  {| CONFIG := CONFIG s; stripe := stripe s;
     stripePublishableKey := stripePublishableKey s;
     exited := exited s; trace := new ++ trace s |}.

(** The outbound calls of a request handled in state [s]: a fetch of the
    catalog, or a charge as above. *)
Definition permitted (s : State) (call : Effect) : Prop :=
  call = HttpsGet (eventsUrl s) \/
  exists p : Params.t, call = ChargesCreate p /\ wellFormed p.

(** A charge of a history of outbound calls is as above. *)
Definition chargeWellFormed (call : Effect) : Prop :=
  match call with
  | ChargesCreate p => wellFormed p
  | HttpsGet _ => True
  end.

(** The configuration the server runs with: the document fetched at
    startup, or the fallback. *)
Definition configuration (W : World) : Config.value :=
  match configDocument W 0 with
  | Resolves c => c
  | Rejects _ => Config.object fallbackConfig
  end.

(** The state in which the process has exited at startup, the configuration
    document being [null]. *)
Definition stopped : State :=
  {| CONFIG := Config.null; stripe := None; stripePublishableKey := None;
     exited := Some 1%Z; trace := [HttpsGet configUrl] |}.

(** The state in which the server listens, the configuration not being
    [null]. *)
Definition listening (W : World) : State :=
  let s := {| CONFIG := configuration W; stripe := None;
              stripePublishableKey := None; exited := None;
              trace := [HttpsGet configUrl] |} in
  {| CONFIG := configuration W;
     stripe := Some (Keys.secretKey (stripeKeys W s));
     stripePublishableKey := Some (Keys.publishableKey (stripeKeys W s));
     exited := None;
     trace := [HttpsGet configUrl] |}.

(** The requests whose handlers read the catalog whatever the request
    holds. *)
Definition catalogRequest (req : Request) : Prop :=
  match req with
  | GetPayment _ _ | GetApiEvents | GetApiEvent _ => True
  | _ => False
  end.

(** The shape of the JSON answers: [success: true] with status 200, or
    [success: false] with one of the other statuses of the route and an
    [error] that is a string. *)
Definition jsonContract (failures : list Z) (r : Response) : Prop :=
  (statusCode r = 200%Z /\ member "success" r = Some (JBool true) /\
   member "error" r = None) \/
  (In (statusCode r) failures /\ member "success" r = Some (JBool false) /\
   exists text : string, member "error" r = Some (JStr text)).

(** A world whose catalog cannot be fetched. *)
Definition worldWithoutCatalog : World :=
  {| configDocument := fun _ =>
       Rejects {| type := None; message := "getaddrinfo ENOTFOUND raw.githubusercontent.com" |};
     eventsDocument := fun _ _ =>
       Rejects {| type := None; message := "getaddrinfo ENOTFOUND raw.githubusercontent.com" |};
     processor := fun _ _ => Resolves ch_123;
     toISOString := fun _ => "2025-01-01T00:00:00.000Z";
     STRIPE_PUBLISHABLE_KEY := None;
     STRIPE_SECRET_KEY := None |}.

(** An event without a price, a world whose catalog lists it before
    [RS2025AI], and its page. *)
Definition RS2025OL : Event.t :=
  {| Event.eventId := "RS2025OL";
     Event.eventName := "Open Lecture 2025";
     Event.eventDescription := "Public lecture, free of charge";
     Event.cost := 0 |}.

Definition worldWithFreeEvent : World :=
  {| configDocument := fun _ =>
       Rejects {| type := None; message := "getaddrinfo ENOTFOUND raw.githubusercontent.com" |};
     eventsDocument := fun _ _ => Resolves [RS2025OL; RS2025AI];
     processor := fun _ _ => Resolves ch_123;
     toISOString := fun _ => "2025-01-01T00:00:00.000Z";
     STRIPE_PUBLISHABLE_KEY := None;
     STRIPE_SECRET_KEY := None |}.

Definition RS2025OL_page : Checkout.t :=
  {| Checkout.backUrl := defaultRedirectUrl;
     Checkout.eventName := "Open Lecture 2025";
     Checkout.eventDescription := "Public lecture, free of charge";
     Checkout.customAmountNote := None;
     Checkout.eventCost := 0;
     Checkout.publishableKey := Some "pk_test_fallback";
     Checkout.eventId := "RS2025OL";
     Checkout.amount := 0 |}.

(** The link back to the main site an answer carries: the target of a
    redirection, or the back link of a page. *)
Definition backLinkOf (a : Answer) : option string :=
  match a with
  | Redirect location => Some location
  | SuccessPage _ backUrl => Some backUrl
  | Sent {| body := Message p |} => Some (backLink p)
  | Sent {| body := Page c |} => Some (Checkout.backUrl c)
  | Sent {| body := Json _ |} => None
  end.

(** A world whose configuration document is the number [0], and one whose
    configuration document is [null]. *)
Definition worldWithFalsyConfig : World :=
  {| configDocument := fun _ => Resolves Config.falsy;
     eventsDocument := fun _ _ => Resolves [RS2025AI];
     processor := fun _ _ => Resolves ch_123;
     toISOString := fun _ => "2025-01-01T00:00:00.000Z";
     STRIPE_PUBLISHABLE_KEY := None;
     STRIPE_SECRET_KEY := None |}.

Definition worldWithNullConfig : World :=
  {| configDocument := fun _ => Resolves Config.null;
     eventsDocument := fun _ _ => Resolves [RS2025AI];
     processor := fun _ _ => Resolves ch_123;
     toISOString := fun _ => "2025-01-01T00:00:00.000Z";
     STRIPE_PUBLISHABLE_KEY := None;
     STRIPE_SECRET_KEY := None |}.

(** * Properties *)

(** ** The model of the built-ins on a few values *)

Section BuiltIns.

Local Open Scope float_scope.

#[local] Set Warnings "-inexact-float".

Example parseFloat_450 : parseFloat "450" = 450.
Proof. reflexivity. Qed.

Example parseFloat_half : parseFloat "0.5" = 0.5.
Proof. reflexivity. Qed.

Example parseFloat_prefix : parseFloat " -12.50abc" = -12.5.
Proof. reflexivity. Qed.

Example parseFloat_exponent : parseFloat "1e4" = 10000.
Proof. reflexivity. Qed.

Example parseFloat_tenth : parseFloat "0.1" = 0.1.
Proof. reflexivity. Qed.

Example parseFloat_overflow : parseFloat "1e309" = infinity.
Proof. reflexivity. Qed.

Example parseFloat_letters : parseFloat "abc" = nan.
Proof. reflexivity. Qed.

Example parseFloat_empty : parseFloat EmptyString = nan.
Proof. reflexivity. Qed.

(** A no-break space (U+00A0) before the digits is skipped, and so are a
    byte order mark (U+FEFF) and an em space (U+2003). *)
Example parseFloat_no_break_space :
  parseFloat (String "194" (String "160" "450")) = 450.
Proof. reflexivity. Qed.

Example parseFloat_mark_and_em_space :
  parseFloat (String "239" (String "187" (String "191"
               (String "226" (String "128" (String "131" "0.5")))))) = 0.5.
Proof. reflexivity. Qed.

(** A zero width space (U+200B) is not white space. *)
Example parseFloat_zero_width_space :
  parseFloat (String "226" (String "128" (String "139" "450"))) = nan.
Proof. reflexivity. Qed.

Example round_tie_up : Math.round 2.5 = 3.
Proof. reflexivity. Qed.

Example round_tie_negative : Math.round (-2.5) = -2.
Proof. reflexivity. Qed.

Example round_negative_zero : Math.round (-0.25) = neg_zero.
Proof. reflexivity. Qed.

(** [1.1 * 100] is [110.00000000000001], which rounds to 110. *)
Example round_product : (110 <? 1.1 * 100) = true /\ Math.round (1.1 * 100) = 110.
Proof. split; reflexivity. Qed.

End BuiltIns.

(** ** Comparisons of numbers *)

Section Comparisons.

Local Open Scope float_scope.

Lemma compare_cont_opp (p q : positive) :
  PosDef.Pos.compare_cont Eq q p = CompOpp (PosDef.Pos.compare_cont Eq p q).
Proof. symmetry. exact (Pos.compare_cont_antisym p q Eq). Qed.

Lemma SFcompare_antisym (x y : spec_float) :
  SFcompare y x = option_map CompOpp (SFcompare x y).
Proof.
  destruct x as [sx | sx | | sx mx ex], y as [sy | sy | | sy my ey];
    simpl; try reflexivity;
    try (destruct sx; reflexivity); try (destruct sy; reflexivity);
    try (destruct sx, sy; reflexivity).
  destruct sx, sy; simpl; try reflexivity;
    rewrite (Z.compare_antisym ey ex);
    destruct (ey ?= ex)%Z; simpl; try reflexivity;
    now rewrite (compare_cont_opp mx my).
Qed.

Lemma SFcompare_refl (x : spec_float) :
  x <> S754_nan -> SFcompare x x = Some Eq.
Proof.
  destruct x as [s | s | | s m e]; simpl; intros H;
    try reflexivity; try (destruct s; reflexivity); try congruence.
  rewrite Z.compare_refl, Pos.compare_cont_refl. destruct s; reflexivity.
Qed.

(** A number is [NaN] exactly when its specification is. *)
Lemma isNaN_spec (a : float) :
  Number.isNaN a = true <-> Prim2SF a = S754_nan.
Proof.
  unfold Number.isNaN, is_nan. rewrite eqb_spec. unfold SFeqb. split.
  - destruct (Prim2SF a) eqn:E; try reflexivity; intros H;
      rewrite SFcompare_refl in H by discriminate; discriminate.
  - intros ->. reflexivity.
Qed.

(** [a <= b] rules out [b < a], and the other way round unless one of the
    two is [NaN]. *)
Lemma leb_not_gtb (a b : float) :
  (a <=? b) = true -> (b <? a) = false.
Proof.
  rewrite leb_spec, ltb_spec. unfold SFleb, SFltb.
  rewrite (SFcompare_antisym (Prim2SF a) (Prim2SF b)).
  destruct (SFcompare (Prim2SF a) (Prim2SF b)) as [[ | | ] | ];
    simpl; congruence.
Qed.

Lemma not_leb_gtb (a b : float) :
  Number.isNaN a = false -> Number.isNaN b = false ->
  (a <=? b) = false -> (b <? a) = true.
Proof.
  intros Ha Hb. rewrite leb_spec, ltb_spec. unfold SFleb, SFltb.
  rewrite (SFcompare_antisym (Prim2SF a) (Prim2SF b)).
  destruct (SFcompare (Prim2SF a) (Prim2SF b)) as [[ | | ] | ] eqn:E;
    simpl; try congruence.
  assert (Prim2SF a = S754_nan \/ Prim2SF b = S754_nan) as [H | H].
  { destruct (Prim2SF a), (Prim2SF b); simpl in E; try discriminate; auto. }
  - apply isNaN_spec in H. congruence.
  - apply isNaN_spec in H. congruence.
Qed.

(** A number that is at least 1 is a positive number or +infinity. *)
Lemma one_leb_shape (a : float) :
  (1 <=? a) = true ->
  Prim2SF a = S754_infinity false \/
  exists m e, Prim2SF a = S754_finite false m e.
Proof.
  rewrite leb_spec. unfold SFleb.
  replace (Prim2SF 1) with (S754_finite false 4503599627370496 (-52)) by reflexivity.
  destruct (Prim2SF a) as [s | s | | s m e]; simpl; try discriminate.
  - destruct s; try discriminate. auto.
  - destruct s; try discriminate. eauto.
Qed.

Lemma one_leb_positive (a : float) :
  (1 <=? a) = true -> Number.isNaN a = false /\ (a <=? 0) = false.
Proof.
  intros H. apply one_leb_shape in H. split.
  - destruct (Number.isNaN a) eqn:E; [ | reflexivity ].
    apply isNaN_spec in E. destruct H as [H | (m & e & H)]; congruence.
  - rewrite leb_spec. unfold SFleb.
    replace (Prim2SF 0) with (S754_zero false) by reflexivity.
    destruct H as [-> | (m & e & ->)]; reflexivity.
Qed.

(** The amounts the checkout accepts are exactly those that pass none of
    its four tests. *)
Lemma accepted_iff (a : float) :
  (1 <=? a) && (a <=? 10000) =
  negb ((Number.isNaN a || (a <=? 0)) || ((a <? 1) || (10000 <? a))).
Proof.
  destruct (1 <=? a) eqn:H1; simpl.
  - destruct (one_leb_positive a H1) as [-> ->]. simpl.
    rewrite (leb_not_gtb 1 a H1). simpl.
    destruct (a <=? 10000) eqn:H2.
    + now rewrite (leb_not_gtb a 10000 H2).
    + rewrite (not_leb_gtb a 10000); try reflexivity; try assumption.
      now destruct (one_leb_positive a H1).
  - destruct (Number.isNaN a) eqn:Hn; [ reflexivity | ]. simpl.
    rewrite (not_leb_gtb 1 a); try reflexivity; try assumption.
    now rewrite orb_true_r.
Qed.

End Comparisons.

(** ** Rounding and integers *)

Section Rounding.

Local Open Scope Z_scope.

Lemma digits2_pos_size (p : positive) : digits2_pos p = Pos.size p.
Proof. induction p; simpl; congruence. Qed.

Lemma digits2_pos_bound (q : positive) (k : Z) :
  0 <= k -> Zpos q < 2 ^ k -> Zpos (digits2_pos q) <= k.
Proof.
  intros Hk H. rewrite digits2_pos_size.
  pose proof (Pos.size_le q) as Hle.
  assert (H2 : 2 ^ Zpos (Pos.size q) <= 2 * Zpos q).
  { change (2 * Zpos q) with (Zpos q~0). rewrite <- Pos2Z.inj_pow. exact Hle. }
  destruct (Z.le_gt_cases (Zpos (Pos.size q)) k) as [ | Hgt]; [ assumption | exfalso ].
  assert (2 ^ (k + 1) <= 2 ^ Zpos (Pos.size q)) by (apply Z.pow_le_mono_r; lia).
  rewrite Z.pow_add_r in * by lia. lia.
Qed.

Lemma iter_xO_digits (q k : positive) :
  digits2_pos (Pos.iter xO q k) = (digits2_pos q + k)%positive.
Proof.
  induction k as [ | k IH] using Pos.peano_ind.
  - simpl. now rewrite Pos.add_1_r.
  - rewrite Pos.iter_succ. simpl. rewrite IH. now rewrite Pos.add_succ_r.
Qed.

Lemma iter_xO_value (q k : positive) :
  Zpos (Pos.iter xO q k) = Zpos q * 2 ^ Zpos k.
Proof.
  induction k as [ | k IH] using Pos.peano_ind.
  - simpl. lia.
  - rewrite Pos.iter_succ, Pos2Z.inj_xO, IH, Pos2Z.inj_succ, Z.pow_succ_r by lia. lia.
Qed.

(** Rounding a mantissa of 53 bits with an exponent in range changes
    nothing. *)
Lemma binary_round_aux_exact (s : bool) (mz : positive) (ez : Z) :
  Zpos (digits2_pos mz) = 53 -> -1074 <= ez <= 971 ->
  binary_round_aux prec emax s (Zpos mz) ez loc_Exact = S754_finite s mz ez.
Proof.
  intros Edig He.
  assert (shr_0 : forall mrs e, shr mrs e 0 = (mrs, e)) by reflexivity.
  unfold binary_round_aux, shr_fexp. simpl Zdigits2. rewrite Edig.
  match goal with
  | |- context [shr _ _ ?n] =>
      replace n with 0 by (unfold fexp, SpecFloat.emin, prec, emax; lia)
  end.
  rewrite shr_0.
  cbv [shr_record_of_loc shr_m round_nearest_even loc_of_shr_record Zdigits2].
  rewrite Edig.
  match goal with
  | |- context [shr _ _ ?n] =>
      replace n with 0 by (unfold fexp, SpecFloat.emin, prec, emax; lia)
  end.
  rewrite shr_0.
  replace (ez <=? emax - prec) with true; [ reflexivity | ].
  symmetry. apply Z.leb_le. unfold emax, prec. lia.
Qed.

Lemma valid_binary_exact (s : bool) (mz : positive) (ez : Z) :
  Zpos (digits2_pos mz) = 53 -> -1074 <= ez <= 971 ->
  valid_binary (S754_finite s mz ez) = true.
Proof.
  intros Edig He. simpl. unfold bounded, canonical_mantissa. rewrite Edig.
  apply andb_true_iff. split.
  - apply Z.eqb_eq. unfold fexp, SpecFloat.emin, prec, emax. lia.
  - apply Z.leb_le. unfold emax, prec. lia.
Qed.

(** The Number value of a nonzero integer of at most 53 bits: the integer
    itself, normalised. *)
Lemma binary_round_small (s : bool) (q : positive) :
  Zpos q < 2 ^ 53 ->
  exists mz ez,
    binary_round prec emax s q 0 = S754_finite s mz ez /\
    valid_binary (S754_finite s mz ez) = true /\
    (0 <=? ez) || (Zpos mz mod 2 ^ (- ez) =? 0) = true.
Proof.
  intros Hq.
  pose proof (digits2_pos_bound q 53 ltac:(lia) Hq) as Hd.
  assert (Hd0 : 0 < Zpos (digits2_pos q)) by lia.
  unfold binary_round.
  assert (Hf : fexp prec emax (Zpos (digits2_pos q) + 0) = Zpos (digits2_pos q) - 53).
  { unfold fexp, SpecFloat.emin, prec, emax. lia. }
  rewrite Hf. unfold shl_align.
  destruct (Zpos (digits2_pos q) - 53 - 0) as [ | k | k] eqn:Ek; try lia.
  - (* 53 bits already *)
    assert (E : Zpos (digits2_pos q) = 53) by lia.
    exists q, 0.
    rewrite (binary_round_aux_exact s q 0 E) by lia.
    rewrite (valid_binary_exact s q 0 E) by lia.
    repeat split.
  - (* shifted left by k *)
    set (mz := Pos.iter xO q k). set (ez := Zpos (digits2_pos q) - 53).
    assert (Edig : Zpos (digits2_pos mz) = 53).
    { unfold mz. rewrite iter_xO_digits, Pos2Z.inj_add. lia. }
    exists mz, ez.
    rewrite (binary_round_aux_exact s mz ez Edig) by (unfold ez; lia).
    rewrite (valid_binary_exact s mz ez Edig) by (unfold ez; lia).
    repeat split.
    apply orb_true_iff. right. apply Z.eqb_eq.
    unfold mz. rewrite iter_xO_value.
    replace (- ez) with (Zpos k) by (unfold ez; lia).
    apply Z.mod_mul. apply Z.pow_nonzero; lia.
Qed.

Lemma digits2_pos_gt (q : positive) : Zpos q < 2 ^ Zpos (digits2_pos q).
Proof.
  rewrite digits2_pos_size. rewrite <- Pos2Z.inj_pow. apply Pos2Z.pos_lt_pos.
  apply Pos.size_gt.
Qed.

(** A finite number is a zero or has a mantissa and an exponent. *)
Lemma is_finite_shape (x : float) :
  is_finite x = true ->
  (exists s, Prim2SF x = S754_zero s) \/
  (exists s m e, Prim2SF x = S754_finite s m e).
Proof.
  unfold is_finite, is_nan, is_infinity.
  rewrite !eqb_spec, abs_spec.
  destruct (Prim2SF x) as [s | s | | s m e]; intros H.
  - left. eauto.
  - destruct s; discriminate.
  - discriminate.
  - right. eauto.
Qed.

(** The mantissa of a number has at most 53 bits. *)
Lemma mantissa_bound (x : float) (s : bool) (m : positive) (e : Z) :
  Prim2SF x = S754_finite s m e -> Zpos m < 2 ^ 53.
Proof.
  intros E. pose proof (Prim2SF_valid x) as Hv. rewrite E in Hv.
  simpl in Hv. unfold bounded, canonical_mantissa in Hv.
  apply andb_true_iff in Hv. destruct Hv as [Hc _]. apply Z.eqb_eq in Hc.
  assert (Hd : Zpos (digits2_pos m) <= 53).
  { unfold fexp, SpecFloat.emin, prec, emax in Hc. lia. }
  pose proof (digits2_pos_gt m) as Hm.
  assert (2 ^ Zpos (digits2_pos m) <= 2 ^ 53) by (apply Z.pow_le_mono_r; lia).
  lia.
Qed.

(** Rounding to the nearest integer stays within 53 bits. *)
Lemma round_bound (sm k : Z) :
  - 2 ^ 53 < sm < 2 ^ 53 -> 0 < k ->
  - 2 ^ 53 < (sm + 2 ^ (k - 1)) / 2 ^ k < 2 ^ 53.
Proof.
  intros Hsm Hk.
  assert (Hh : 0 < 2 ^ (k - 1)) by (apply Z.pow_pos_nonneg; lia).
  assert (E : 2 ^ k = 2 * 2 ^ (k - 1)).
  { replace k with (Z.succ (k - 1)) at 1 by lia. apply Z.pow_succ_r. lia. }
  rewrite E. set (h := 2 ^ (k - 1)) in *. set (B := 2 ^ 53) in *.
  assert (HB : 2 <= B) by (unfold B; lia).
  split.
  - apply Z.lt_le_trans with (- (2 ^ 52)); [ unfold B; lia | ].
    apply Z.div_le_lower_bound; [ lia | ].
    assert (2 ^ 52 * 2 = B) by (unfold B; reflexivity). nia.
  - apply Z.div_lt_upper_bound; [ lia | ]. nia.
Qed.

(** [Math.round] of a finite number is an integer. *)
Lemma round_isInteger (x : float) :
  is_finite x = true -> Number.isInteger (Math.round x) = true.
Proof.
  intros Hfin. unfold Math.round.
  destruct (is_finite_shape x Hfin) as [(s & E) | (s & m & e & E)]; rewrite E.
  - unfold Number.isInteger. now rewrite E.
  - destruct (0 <=? e) eqn:He.
    + unfold Number.isInteger. rewrite E, He. reflexivity.
    + apply Z.leb_gt in He.
      set (n := (cond_Zopp s (Zpos m) + 2 ^ (- e - 1)) / 2 ^ (- e)).
      destruct (n =? 0) eqn:Hn; [ destruct s; reflexivity | ].
      apply Z.eqb_neq in Hn.
      assert (Hb : - 2 ^ 53 < n < 2 ^ 53).
      { unfold n. replace (- e - 1) with (- e - 1) by lia.
        apply (round_bound (cond_Zopp s (Zpos m)) (- e)); [ | lia ].
        pose proof (mantissa_bound x s m e E). destruct s; simpl; lia. }
      unfold Number.ofZ, binary_normalize.
      destruct n as [ | q | q]; [ congruence | | ].
      * destruct (binary_round_small false q ltac:(lia)) as (mz & ez & -> & Hv & Hi).
        unfold Number.isInteger. now rewrite (Prim2SF_SF2Prim _ Hv).
      * destruct (binary_round_small true q ltac:(lia)) as (mz & ez & -> & Hv & Hi).
        unfold Number.isInteger. now rewrite (Prim2SF_SF2Prim _ Hv).
Qed.


(** *** Shifting a mantissa to the right *)

Lemma shr_1_m (r : shr_record) :
  0 <= shr_m r -> shr_m (shr_1 r) = shr_m r / 2 /\ 0 <= shr_m (shr_1 r).
Proof.
  destruct r as [m rb sb]. cbv [shr_1 shr_m]. intros Hm.
  destruct m as [ | [p | p | ] | p]; try lia.
  - split; [ reflexivity | lia ].
  - split; [ | lia ].
    apply Z.div_unique with (r := 1); lia.
  - split; [ | lia ].
    apply Z.div_unique with (r := 0); lia.
  - split; [ reflexivity | lia ].
Qed.

Lemma iter_shr_1_m (p : positive) (r : shr_record) :
  0 <= shr_m r ->
  shr_m (iter_pos shr_1 p r) = shr_m r / 2 ^ Zpos p /\
  0 <= shr_m (iter_pos shr_1 p r).
Proof.
  revert r. induction p as [p IH | p IH | ]; intros r Hr; simpl iter_pos.
  - destruct (shr_1_m r Hr) as [E1 H1].
    destruct (IH _ H1) as [E2 H2]. destruct (IH _ H2) as [E3 H3].
    split; [ | assumption ].
    rewrite E3, E2, E1.
    rewrite !Z.div_div by (try apply Z.pow_pos_nonneg; lia).
    f_equal. replace (Zpos p~1) with (1 + Zpos p + Zpos p) by lia.
    rewrite !Z.pow_add_r by lia. change (2 ^ 1) with 2. ring.
  - destruct (IH _ Hr) as [E2 H2]. destruct (IH _ H2) as [E3 H3].
    split; [ | assumption ].
    rewrite E3, E2.
    rewrite !Z.div_div by (try apply Z.pow_pos_nonneg; lia).
    f_equal. replace (Zpos p~0) with (Zpos p + Zpos p) by lia.
    rewrite Z.pow_add_r by lia. ring.
  - destruct (shr_1_m r Hr) as [E1 H1]. split; [ | assumption ].
    rewrite E1. reflexivity.
Qed.

Lemma digits2_pos_le (q : positive) : 2 ^ (Zpos (digits2_pos q) - 1) <= Zpos q.
Proof.
  rewrite digits2_pos_size.
  pose proof (Pos.size_le q) as Hle.
  assert (H2 : 2 ^ Zpos (Pos.size q) <= 2 * Zpos q).
  { change (2 * Zpos q) with (Zpos q~0). rewrite <- Pos2Z.inj_pow. exact Hle. }
  replace (Zpos (Pos.size q)) with (Z.succ (Zpos (Pos.size q) - 1)) in H2 by lia.
  rewrite Z.pow_succ_r in H2 by lia. lia.
Qed.

Lemma digits2_pos_lower (q : positive) (k : Z) :
  0 <= k -> 2 ^ k <= Zpos q -> k < Zpos (digits2_pos q).
Proof.
  intros Hk H. pose proof (digits2_pos_gt q) as Hgt.
  destruct (Z.lt_ge_cases k (Zpos (digits2_pos q))) as [ | Hge]; [ assumption | ].
  assert (2 ^ Zpos (digits2_pos q) <= 2 ^ k) by (apply Z.pow_le_mono_r; lia).
  lia.
Qed.

Lemma round_nearest_even_bounds (m : Z) (l : location) :
  m <= round_nearest_even m l <= m + 1.
Proof.
  destruct l as [ | [ | | ]]; simpl; try lia.
  destruct (Z.even m); lia.
Qed.

(** Rounding a mantissa of more than 53 bits, in the range of the normal
    numbers and away from overflow, gives a number whose exponent is that of
    the 53 leading bits, or one more. *)
Lemma binary_round_aux_large (s : bool) (P : positive) (E0 : Z) :
  let d := Zpos (digits2_pos P) in
  53 < d -> -1074 <= E0 + (d - 53) -> E0 + (d - 53) + 1 <= 971 ->
  exists m e,
    binary_round_aux prec emax s (Zpos P) E0 loc_Exact = S754_finite s m e /\
    E0 + (d - 53) <= e.
Proof.
  intros d Hd Hlo Hhi.
  assert (shr_0 : forall mrs e, shr mrs e 0 = (mrs, e)) by reflexivity.
  assert (shr_pos : forall mrs e k,
             shr mrs e (Zpos k) = (iter_pos shr_1 k mrs, e + Zpos k)) by reflexivity.
  destruct (d - 53) as [ | k1 | k1] eqn:Ek1; try lia.
  unfold binary_round_aux, shr_fexp. simpl Zdigits2. fold d.
  match goal with
  | |- context [shr _ _ ?n] =>
      replace n with (Zpos k1) by (unfold fexp, SpecFloat.emin, prec, emax; lia)
  end.
  rewrite shr_pos. cbv beta iota zeta.
  set (r0 := shr_record_of_loc (Zpos P) loc_Exact).
  set (r1 := iter_pos shr_1 k1 r0).
  destruct (iter_shr_1_m k1 r0 ltac:(simpl; lia)) as [Eq1 _]. fold r1 in Eq1.
  change (shr_m r0) with (Zpos P) in Eq1.
  pose proof (digits2_pos_le P) as HPlo. pose proof (digits2_pos_gt P) as HPhi.
  fold d in HPlo, HPhi.
  assert (Hpow : 2 ^ d = 2 ^ Zpos k1 * 2 ^ 53).
  { rewrite <- Z.pow_add_r by lia. f_equal. lia. }
  assert (Hpow' : 2 ^ (d - 1) = 2 ^ Zpos k1 * 2 ^ 52).
  { rewrite <- Z.pow_add_r by lia. f_equal. lia. }
  assert (Hk : 0 < 2 ^ Zpos k1) by (apply Z.pow_pos_nonneg; lia).
  assert (Hq : 2 ^ 52 <= shr_m r1 < 2 ^ 53).
  { rewrite Eq1. split.
    - apply Z.div_le_lower_bound; lia.
    - apply Z.div_lt_upper_bound; lia. }
  pose proof (round_nearest_even_bounds (shr_m r1) (loc_of_shr_record r1)) as Hr.
  set (m' := round_nearest_even (shr_m r1) (loc_of_shr_record r1)) in *.
  destruct m' as [ | pm | pm] eqn:Em'; try lia.
  simpl Zdigits2.
  assert (Hdig : 52 < Zpos (digits2_pos pm)) by (apply digits2_pos_lower; lia).
  assert (Hdig' : Zpos (digits2_pos pm) <= 54).
  { apply digits2_pos_bound; [ lia | ]. change (2 ^ 54) with (2 * 2 ^ 53). lia. }
  assert (Hcase : Zpos (digits2_pos pm) = 53 \/ Zpos (digits2_pos pm) = 54) by lia.
  destruct Hcase as [E53 | E54].
  - match goal with
    | |- context [shr _ _ ?n] =>
        replace n with 0 by (unfold fexp, SpecFloat.emin, prec, emax; lia)
    end.
    rewrite shr_0. cbv [shr_record_of_loc shr_m].
    replace (E0 + Zpos k1 <=? emax - prec) with true
      by (symmetry; apply Z.leb_le; unfold emax, prec; lia).
    exists pm, (E0 + Zpos k1). split; [ reflexivity | lia ].
  - match goal with
    | |- context [shr _ _ ?n] =>
        replace n with 1 by (unfold fexp, SpecFloat.emin, prec, emax; lia)
    end.
    rewrite shr_pos. cbv [iter_pos].
    destruct (shr_1_m (shr_record_of_loc (Zpos pm) loc_Exact) ltac:(simpl; lia))
      as [Eq2 _].
    change (shr_m (shr_record_of_loc (Zpos pm) loc_Exact)) with (Zpos pm) in Eq2.
    cbv beta iota zeta. rewrite Eq2.
    assert (Hhalf : 2 ^ 52 <= Zpos pm / 2).
    { pose proof (digits2_pos_le pm) as Hpm. rewrite E54 in Hpm.
      change (2 ^ (54 - 1)) with (2 * 2 ^ 52) in Hpm.
      apply Z.div_le_lower_bound; lia. }
    destruct (Zpos pm / 2) as [ | ph | ph]; try lia.
    replace (E0 + Zpos k1 + 1 <=? emax - prec) with true
      by (symmetry; apply Z.leb_le; unfold emax, prec; lia).
    exists ph, (E0 + Zpos k1 + 1). split; [ reflexivity | lia ].
Qed.

Local Open Scope float_scope.

Lemma SFleb_exponents (s2 : bool) (m1 m2 : positive) (e1 e2 : Z) :
  SFleb (S754_finite false m1 e1) (S754_finite s2 m2 e2) = true ->
  s2 = false /\ (e1 <= e2)%Z.
Proof.
  unfold SFleb, SFcompare. intros H. destruct s2; [ discriminate | ].
  split; [ reflexivity | ].
  destruct (Z.compare_spec e1 e2); try lia; discriminate.
Qed.

(** An amount between 1 and 10000 is a normal number with an exponent between
    -52 and -39. *)
Lemma in_range_shape (a : float) :
  (1 <=? a) = true -> (a <=? 10000) = true ->
  exists m e, Prim2SF a = S754_finite false m e /\
              (-52 <= e <= -39)%Z /\ Zpos (digits2_pos m) = 53%Z.
Proof.
  intros Hlo Hhi.
  pose proof (Prim2SF_valid a) as Hv.
  rewrite leb_spec in Hlo, Hhi.
  replace (Prim2SF 1) with (S754_finite false 4503599627370496 (-52)) in Hlo
    by reflexivity.
  replace (Prim2SF 10000) with (S754_finite false 5497558138880000 (-39)) in Hhi
    by reflexivity.
  destruct (Prim2SF a) as [s | s | | s m e].
  - destruct s; discriminate.
  - destruct s; discriminate.
  - discriminate.
  - destruct (SFleb_exponents _ _ _ _ _ Hlo) as [-> He1].
    destruct (SFleb_exponents _ _ _ _ _ Hhi) as [_ He2].
    exists m, e. split; [ reflexivity | ]. split; [ lia | ].
    clear Hlo Hhi.
    simpl in Hv. unfold bounded, canonical_mantissa in Hv.
    apply andb_true_iff in Hv. destruct Hv as [Hc _]. apply Z.eqb_eq in Hc.
    unfold fexp, SpecFloat.emin, prec, emax in Hc. lia.
Qed.

(** Such an amount times 100 is a positive number of exponent at least
    -46, which makes it at least [2^6]. *)
Lemma mul_100_shape (a : float) :
  (1 <=? a) = true -> (a <=? 10000) = true ->
  exists m e, Prim2SF (a * 100) = S754_finite false m e /\ (-46 <= e)%Z.
Proof.
  intros Hlo Hhi.
  destruct (in_range_shape a Hlo Hhi) as (m & e & E & He & Hd).
  rewrite mul_spec. unfold SF64mul, SFmul. rewrite E.
  replace (Prim2SF 100) with (S754_finite false 7036874417766400 (-46))
    by reflexivity.
  cbv beta iota. simpl xorb.
  set (P := PosDef.Pos.mul m 7036874417766400).
  assert (HP : Zpos P = (Zpos m * 7036874417766400)%Z) by reflexivity.
  pose proof (digits2_pos_le m) as Hmlo. pose proof (digits2_pos_gt m) as Hmhi.
  rewrite Hd in Hmlo, Hmhi. change (53 - 1)%Z with 52%Z in Hmlo.
  assert (Hdlo : (104 < Zpos (digits2_pos P))%Z).
  { apply digits2_pos_lower; [ lia | ]. rewrite HP.
    change 104%Z with (52 + 52)%Z. rewrite Z.pow_add_r by lia.
    apply Z.mul_le_mono_nonneg; lia. }
  assert (Hdhi : (Zpos (digits2_pos P) <= 106)%Z).
  { apply digits2_pos_bound; [ lia | ]. rewrite HP.
    change 106%Z with (53 + 53)%Z. rewrite Z.pow_add_r by lia.
    apply Z.mul_lt_mono_nonneg; lia. }
  destruct (binary_round_aux_large false P (IntDef.Z.add e (-46)))
    as (m' & e' & R & He'); try lia.
  exists m', e'. split; [ exact R | lia ].
Qed.

Lemma positive_finite (x : float) (m : positive) (e : Z) :
  Prim2SF x = S754_finite false m e ->
  is_finite x = true /\ Number.falsy x = false /\ is_zero x = false.
Proof.
  intros E. unfold Number.falsy, is_finite, is_zero, is_nan, is_infinity.
  rewrite !eqb_spec, abs_spec, E. unfold SFeqb.
  rewrite SFcompare_refl by discriminate.
  replace (Prim2SF zero) with (S754_zero false) by reflexivity.
  replace (Prim2SF infinity) with (S754_infinity false) by reflexivity.
  repeat split.
Qed.



End Rounding.

(** ** The checkout page: resolving the amount *)

Lemma truthy_nonempty (str : string) :
  str <> EmptyString -> truthy (Some str) = true.
Proof. destruct str; [ congruence | reflexivity ]. Qed.

Lemma charges_record_get (url : string) (s : State) :
  charges (trace (record (HttpsGet url) s)) = charges (trace s).
Proof. reflexivity. Qed.

(** The checkout handler makes one outbound call, the fetch of the catalog,
    and changes nothing else. *)
Lemma payment_page_state (W : World) (eventId : string) (pay : option string)
    (s : State) :
  snd (payment_page W eventId pay s) = record (HttpsGet (eventsUrl s)) s.
Proof.
  cbv [payment_page try_catch bind loadEvents get await ret].
  destruct (eventsDocument W (eventsUrl s) (List.length (trace s))) as [events | e];
    simpl; [ | reflexivity ].
  destruct (findEvent events eventId) as [event | ]; simpl; [ | reflexivity ].
  destruct (truthy pay); simpl; [ | reflexivity ].
  destruct (Number.isNaN _ || _); simpl; [ reflexivity | ].
  destruct (_ || _); reflexivity.
Qed.

(** What the handler answers once the event is found: the stages of the
    validation in the order of the code. *)
Lemma payment_page_found (W : World) (eventId : string) (pay : option string)
    (s : State) (events : list Event.t) (event : Event.t) :
  eventsDocument W (eventsUrl s) (List.length (trace s)) = Resolves events ->
  findEvent events eventId = Some event ->
  let s' := record (HttpsGet (eventsUrl s)) s in
  let a := parseFloat (toString pay) in
  response (payment_page W eventId pay s) =
  Some (if truthy pay then
          if Number.isNaN a || (a <=? 0)%float then invalidAmount s'
          else if (a <? 1)%float || (10000 <? a)%float then amountOutOfRange s'
          else checkout s' eventId event pay a
        else checkout s' eventId event pay (Event.cost event)).
Proof.
  intros Hdoc Hfind s' a.
  cbv [payment_page try_catch bind loadEvents get await ret].
  rewrite Hdoc. simpl. rewrite Hfind. fold a. fold s'.
  destruct (truthy pay); simpl; [ | reflexivity ].
  destruct (Number.isNaN a || _); simpl; [ reflexivity | ].
  destruct (_ || _); reflexivity.
Qed.

(** C1: for an event of the catalog and an override that parses to a number
    [a] with [1 <= a <= 10000], the page is rendered with the amount [a]
    itself as its price, whatever the catalog's default cost, and the amount
    its script sends on to [/process-payment] is [a * 100]. *)
Theorem override_amount_resolved (W : World) (s : State) (eventId str : string)
    (events : list Event.t) (event : Event.t) :
  eventsDocument W (eventsUrl s) (List.length (trace s)) = Resolves events ->
  findEvent events eventId = Some event ->
  (1 <=? parseFloat str)%float = true ->
  (parseFloat str <=? 10000)%float = true ->
  exists c : Checkout.t,
    response (payment_page W eventId (Some str) s) =
      Some {| statusCode := 200; body := Page c |} /\
    Checkout.eventCost c = parseFloat str /\
    Checkout.amount c = (parseFloat str * 100)%float /\
    Checkout.eventId c = eventId /\
    forall token fullName email phone : string,
      Req.amount (submitForm c token fullName email phone) =
        Some (parseFloat str * 100)%float.
Proof.
  intros Hdoc Hfind Hlo Hhi.
  rewrite (payment_page_found W eventId (Some str) s events event Hdoc Hfind).
  assert (Hstr : str <> EmptyString).
  { intros ->. vm_compute in Hlo. discriminate. }
  rewrite (truthy_nonempty str Hstr). simpl toString.
  pose proof (accepted_iff (parseFloat str)) as Hacc.
  rewrite Hlo, Hhi in Hacc. simpl in Hacc.
  symmetry in Hacc. apply negb_true_iff in Hacc.
  apply orb_false_iff in Hacc. destruct Hacc as [-> ->].
  eexists. split; [ reflexivity | ]. simpl. repeat split.
  intros token fullName email phone.
  destruct (mul_100_shape (parseFloat str) Hlo Hhi) as (m & e & Eshape & _).
  destruct (positive_finite _ m e Eshape) as (Hfin & _ & Hzero).
  unfold overJSON, literal. now rewrite Hzero, Hfin.
Qed.

(** The scenario [pay=450]: amount 450, minor units 45000. *)
Lemma override_amount_resolved_450 :
  exists c : Checkout.t,
    response (payment_page W0 "RS2025AI" (Some "450") (started W0)) =
      Some {| statusCode := 200; body := Page c |} /\
    Checkout.eventCost c = 450%float /\
    Checkout.amount c = 45000%float /\
    Checkout.eventId c = "RS2025AI" /\
    forall token fullName email phone : string,
      Req.amount (submitForm c token fullName email phone) = Some 45000%float.
Proof.
  exact (override_amount_resolved W0 (started W0) "RS2025AI" "450" [RS2025AI] RS2025AI
           eq_refl eq_refl eq_refl eq_refl).
Defined.

(** The checkout handler never submits a charge. *)
Lemma payment_page_no_charge (W : World) (eventId : string) (pay : option string)
    (s : State) :
  charges (trace (snd (payment_page W eventId pay s))) = charges (trace s).
Proof. rewrite payment_page_state. apply charges_record_get. Qed.

(** C2, as the code has it: for an event of the catalog and an override that
    is not empty and does not parse to a number, or parses to one that is
    [<= 0], [< 1] or [> 10000], the handler answers with one of its two
    validation errors (status 400) instead of the page, and no charge is
    submitted while the request is handled. *)
Theorem invalid_override_rejected (W : World) (s : State) (eventId str : string)
    (events : list Event.t) (event : Event.t) :
  eventsDocument W (eventsUrl s) (List.length (trace s)) = Resolves events ->
  findEvent events eventId = Some event ->
  str <> EmptyString ->
  Number.isNaN (parseFloat str) = true \/ (parseFloat str <=? 0)%float = true \/
  (parseFloat str <? 1)%float = true \/ (10000 <? parseFloat str)%float = true ->
  let r := payment_page W eventId (Some str) s in
  (response r = Some (invalidAmount (snd r)) \/
   response r = Some (amountOutOfRange (snd r))) /\
  (forall c, response r <> Some {| statusCode := 200; body := Page c |}) /\
  charges (trace (snd r)) = charges (trace s).
Proof.
  intros Hdoc Hfind Hstr Hbad r. subst r.
  rewrite payment_page_no_charge, payment_page_state.
  rewrite (payment_page_found W eventId (Some str) s events event Hdoc Hfind).
  rewrite (truthy_nonempty str Hstr). simpl toString.
  destruct (Number.isNaN (parseFloat str) || (parseFloat str <=? 0)%float) eqn:E1.
  - repeat split; auto. intros c; discriminate.
  - destruct ((parseFloat str <? 1)%float || (10000 <? parseFloat str)%float) eqn:E2.
    + repeat split; auto. intros c; discriminate.
    + apply orb_false_iff in E1, E2.
      destruct E1 as [N1 N2], E2 as [N3 N4].
      destruct Hbad as [H | [H | [H | H]]]; congruence.
Qed.

(** The scenario [pay=0.5]: rejected, being below the minimum of 1. *)
Lemma invalid_override_rejected_half :
  let r := payment_page W0 "RS2025AI" (Some "0.5") (started W0) in
  (response r = Some (invalidAmount (snd r)) \/
   response r = Some (amountOutOfRange (snd r))) /\
  (forall c, response r <> Some {| statusCode := 200; body := Page c |}) /\
  charges (trace (snd r)) = charges (trace (started W0)).
Proof.
  apply (invalid_override_rejected W0 (started W0) "RS2025AI" "0.5" [RS2025AI] RS2025AI).
  - reflexivity.
  - reflexivity.
  - discriminate.
  - right. right. left. reflexivity.
Defined.

(** An override that is the empty string ([/payment/RS2025AI?pay=]) does not
    parse to a number, and yet the page is rendered, at the catalog's price:
    [if (customPay)] takes the empty string for no override. *)
Lemma empty_override_not_rejected :
  let r := payment_page W0 "RS2025AI" (Some EmptyString) (started W0) in
  Number.isNaN (parseFloat EmptyString) = true /\
  response r <> Some (invalidAmount (snd r)) /\
  response r <> Some (amountOutOfRange (snd r)) /\
  response r = Some (checkout (snd r) "RS2025AI" RS2025AI (Some EmptyString) 299).
Proof.
  cbv zeta. repeat split; try discriminate.
Qed.

(** C3, as the code has it: an override that is not empty is validated in two
    stages, in this order: one that does not parse to a number, or parses to
    one that is [<= 0], is answered with the invalid-amount error whatever
    the range test would say; one that passes this test and lies outside
    [1, 10000] is answered with the out-of-range error; and the two answers
    differ. *)
Theorem validation_order (W : World) (s : State) (eventId str : string)
    (events : list Event.t) (event : Event.t) :
  eventsDocument W (eventsUrl s) (List.length (trace s)) = Resolves events ->
  findEvent events eventId = Some event ->
  str <> EmptyString ->
  let a := parseFloat str in
  let r := payment_page W eventId (Some str) s in
  (Number.isNaN a = true \/ (a <=? 0)%float = true ->
   response r = Some (invalidAmount (snd r))) /\
  (Number.isNaN a = false -> (a <=? 0)%float = false ->
   (a <? 1)%float = true \/ (10000 <? a)%float = true ->
   response r = Some (amountOutOfRange (snd r))) /\
  invalidAmount (snd r) <> amountOutOfRange (snd r).
Proof.
  intros Hdoc Hfind Hstr a r. subst r.
  rewrite payment_page_state.
  rewrite (payment_page_found W eventId (Some str) s events event Hdoc Hfind).
  rewrite (truthy_nonempty str Hstr). simpl toString. fold a.
  repeat split.
  - intros [H | H]; rewrite H; [ reflexivity | now rewrite orb_true_r ].
  - intros H1 H2 [H | H]; rewrite H1, H2, H; [ reflexivity | ].
    now rewrite orb_true_r.
  - discriminate.
Qed.

(** The override [-5] fails both tests and is answered by the first. *)
Lemma validation_order_minus_five :
  let a := parseFloat "-5" in
  let r := payment_page W0 "RS2025AI" (Some "-5") (started W0) in
  (Number.isNaN a = true \/ (a <=? 0)%float = true ->
   response r = Some (invalidAmount (snd r))) /\
  (Number.isNaN a = false -> (a <=? 0)%float = false ->
   (a <? 1)%float = true \/ (10000 <? a)%float = true ->
   response r = Some (amountOutOfRange (snd r))) /\
  invalidAmount (snd r) <> amountOutOfRange (snd r).
Proof.
  apply (validation_order W0 (started W0) "RS2025AI" "-5" [RS2025AI] RS2025AI).
  - reflexivity.
  - reflexivity.
  - discriminate.
Defined.

(** For the empty override the parse test is not run at all: the value does
    not parse to a number and the answer is the page, with status 200. *)
Lemma empty_override_not_validated :
  let r := payment_page W0 "RS2025AI" (Some EmptyString) (started W0) in
  Number.isNaN (parseFloat EmptyString) = true /\
  response r <> Some (invalidAmount (snd r)) /\
  option_map statusCode (response r) = Some 200%Z.
Proof.
  cbv zeta. repeat split. discriminate.
Qed.

(** White space before the number does not make an override invalid, the
    no-break space U+00A0 no more than the space: [pay=%C2%A0450] gives the
    page at 450, and [pay=%C2%A00.5] is answered by the range test. *)
Example override_after_no_break_space :
  let r := payment_page W0 "RS2025AI" (Some (String "194" (String "160" "450")))
             (started W0) in
  response r =
    Some (checkout (snd r) "RS2025AI" RS2025AI
            (Some (String "194" (String "160" "450"))) 450).
Proof. reflexivity. Qed.

Example small_override_after_no_break_space :
  let r := payment_page W0 "RS2025AI" (Some (String "194" (String "160" "0.5")))
             (started W0) in
  response r = Some (amountOutOfRange (snd r)).
Proof. reflexivity. Qed.

(** ** The configuration cache *)

Section ConfigCache.

Variable W : World.

(** With a [CONFIG] that is truthy, a call returns from it and touches
    nothing. *)
Lemma getStripeConfig_cached (s : State) :
  Config.truthy (CONFIG s) = true ->
  snd (getStripeConfig W s) = s.
Proof.
  intros H. cbv [getStripeConfig bind get ret]. rewrite H.
  destruct (CONFIG s); [ discriminate | discriminate | reflexivity ].
Qed.

(** With a [CONFIG] that is not, a call fetches the document once and keeps
    what it got, or the fallback when the fetch or the parse failed. *)
Lemma getStripeConfig_cold (s : State) :
  Config.truthy (CONFIG s) = false ->
  let s1 := snd (getStripeConfig W s) in
  trace s1 = HttpsGet configUrl :: trace s /\
  CONFIG s1 = match configDocument W (List.length (trace s)) with
              | Resolves c => c
              | Rejects _ => Config.object fallbackConfig
              end.
Proof.
  intros H.
  cbv [getStripeConfig bind get ret try_catch loadConfig await setCONFIG throw].
  rewrite H.
  destruct (configDocument W (List.length (trace s))) as [[ | | c] | e];
    simpl; auto.
Qed.

Lemma calls_cached (n : nat) (s : State) :
  Config.truthy (CONFIG s) = true -> calls W n s = s.
Proof.
  intros H. induction n as [ | n IH]; simpl; [ reflexivity | ].
  now rewrite (getStripeConfig_cached s H).
Qed.

(** C4, as the code has it, for calls made one after the other.  Starting
    with no configuration loaded, the first call of [getStripeConfig] makes
    one fetch of the configuration document and assigns to [CONFIG] what it
    got, or the fallback [{ stripe: {} }] when the fetch failed.  When that
    is truthy, as the fallback and every object are, the call returns, and
    any number of further calls make no fetch, leave [CONFIG] as it is and
    return what the first call returned: however many calls are made, there
    is one fetch. *)
Theorem config_fetched_once (s : State) (n : nat) :
  Config.truthy (CONFIG s) = false ->
  let c := match configDocument W (List.length (trace s)) with
           | Resolves c => c
           | Rejects _ => Config.object fallbackConfig
           end in
  Config.truthy c = true ->
  let s1 := snd (getStripeConfig W s) in
  configFetches (trace s1) = S (configFetches (trace s)) /\
  CONFIG s1 = c /\
  (exists keys : Keys.t, fst (getStripeConfig W s) = Returns keys) /\
  calls W n s1 = s1 /\
  getStripeConfig W (calls W n s1) = (fst (getStripeConfig W s), s1) /\
  configFetches (trace (calls W (S n) s)) = S (configFetches (trace s)).
Proof.
  intros H c Hc s1.
  destruct (getStripeConfig_cold s H) as [Ht Hs1]. fold s1 c in Ht, Hs1.
  assert (Htruthy : Config.truthy (CONFIG s1) = true) by now rewrite Hs1.
  assert (Hcalls : calls W n s1 = s1) by now apply calls_cached.
  assert (Hfetch : configFetches (trace s1) = S (configFetches (trace s))).
  { rewrite Ht. reflexivity. }
  repeat split; try assumption.
  - subst s1 c. revert Hc.
    cbv [getStripeConfig bind get ret try_catch loadConfig await setCONFIG throw].
    rewrite H.
    destruct (configDocument W (List.length (trace s))) as [[ | | c] | e];
      simpl; try discriminate; eauto.
  - rewrite Hcalls. subst s1 c. revert Hc.
    cbv [getStripeConfig bind get ret try_catch loadConfig await setCONFIG throw].
    rewrite H.
    destruct (configDocument W (List.length (trace s))) as [[ | | c] | e];
      simpl; try discriminate; reflexivity.
  - simpl. fold s1. now rewrite Hcalls.
Qed.

End ConfigCache.

(** In the world where the configuration cannot be fetched, the server
    starts on the fallback and five more calls fetch nothing. *)
Lemma config_fetched_once_fallback :
  let s1 := snd (getStripeConfig W0 initial) in
  configFetches (trace s1) = 1%nat /\
  CONFIG s1 = Config.object fallbackConfig /\
  (exists keys : Keys.t, fst (getStripeConfig W0 initial) = Returns keys) /\
  calls W0 5 s1 = s1 /\
  getStripeConfig W0 (calls W0 5 s1) = (fst (getStripeConfig W0 initial), s1) /\
  configFetches (trace (calls W0 6 initial)) = 1%nat.
Proof.
  exact (config_fetched_once W0 initial 5 eq_refl eq_refl).
Defined.

(** A document that is fetched and is falsy is not cached.  In the world
    whose configuration document is [0], the first call fetches it, assigns
    it to [CONFIG] and returns the keys; [CONFIG] being falsy still, the
    second call and the third fetch again: three calls, three fetches. *)
Lemma falsy_document_fetched_again :
  let s1 := snd (getStripeConfig worldWithFalsyConfig initial) in
  configFetches (trace s1) = 1%nat /\
  CONFIG s1 = Config.falsy /\
  (exists keys : Keys.t,
     fst (getStripeConfig worldWithFalsyConfig initial) = Returns keys) /\
  configFetches (trace (calls worldWithFalsyConfig 2 initial)) = 2%nat /\
  configFetches (trace (calls worldWithFalsyConfig 3 initial)) = 3%nat.
Proof.
  cbv zeta. repeat split. eexists. reflexivity.
Qed.

(** ** Looking an event up *)

Lemma findEvent_absent (events : list Event.t) (eventId : string) :
  ~ In eventId (map Event.eventId events) -> findEvent events eventId = None.
Proof.
  unfold findEvent. induction events as [ | e events IH]; simpl; intros H.
  - reflexivity.
  - destruct (String.eqb_spec (Event.eventId e) eventId) as [Heq | Hne].
    + exfalso. auto.
    + apply IH. auto.
Qed.

Lemma findEvent_present (events : list Event.t) (eventId : string) (event : Event.t) :
  findEvent events eventId = Some event ->
  In event events /\ Event.eventId event = eventId.
Proof.
  unfold findEvent. intros H. apply find_some in H.
  destruct H as [Hin Heq]. split; [ assumption | ].
  now apply String.eqb_eq.
Qed.

(** C5: when the catalog is fetched and holds no event with the identifier
    asked for, [GET /api/events/:eventId] returns (it does not throw) the
    not-found answer, status 404.  When the fetch or the parse of the catalog
    fails, [loadEvents] passes the error on to its caller, and the handler
    then answers with status 500 and a message of its own, which is not the
    not-found answer. *)
Theorem absent_event_not_found (W : World) (s : State) (eventId : string) :
  (forall events : list Event.t,
     eventsDocument W (eventsUrl s) (List.length (trace s)) = Resolves events ->
     ~ In eventId (map Event.eventId events) ->
     fst (api_event W eventId s) = Returns eventNotFound) /\
  (forall error : Error,
     eventsDocument W (eventsUrl s) (List.length (trace s)) = Rejects error ->
     fst (loadEvents W s) = Throws error /\
     fst (api_event W eventId s) = Returns eventUnavailable /\
     eventUnavailable <> eventNotFound).
Proof.
  split.
  - intros events Hdoc Habsent.
    cbv [api_event try_catch bind loadEvents get await ret]. rewrite Hdoc. simpl.
    now rewrite (findEvent_absent events eventId Habsent).
  - intros error Hdoc. repeat split.
    + cbv [bind loadEvents get await]. now rewrite Hdoc.
    + cbv [api_event try_catch bind loadEvents get await ret]. now rewrite Hdoc.
    + discriminate.
Qed.

(** An identifier the catalog does not hold, and a catalog that cannot be
    fetched. *)
Example api_event_unknown :
  fst (api_event W0 "RS1999" (started W0)) = Returns eventNotFound.
Proof. reflexivity. Qed.

Example api_event_known :
  fst (api_event W0 "RS2025AI" (started W0)) =
    Returns (res_json 200 [("success", JBool true); ("event", Event.toJSON RS2025AI)]).
Proof. reflexivity. Qed.

(** ** Submitting a charge *)

Section ProcessPayment.

Variable W : World.

(** A member that is missing, or empty, or a zero amount: the request is
    turned down before anything else is done. *)
Lemma process_payment_missing (body : Req.t) (s : State) :
  incomplete body ->
  process_payment W body s = (Returns missingFields, s).
Proof.
  unfold incomplete. intros H. cbv [process_payment try_catch ret].
  destruct (present (Req.token body)), (present (Req.eventId body)),
    (present (Req.name body)), (present (Req.email body)),
    (present (Req.phone body)), (presentNumber (Req.amount body));
    try reflexivity.
  destruct H as [H | [H | [H | [H | [H | H]]]]]; discriminate.
Qed.

(** With every member present, the run of the handler, stage by stage. *)
Lemma process_payment_present (body : Req.t) (s : State)
    (token eventId name email phone : string) (amount : float) :
  complete body token eventId name email phone amount ->
  let s1 := record (HttpsGet (eventsUrl s)) s in
  process_payment W body s =
  if (amount <? 50)%float then (Returns amountTooSmall, s)
  else
    match eventsDocument W (eventsUrl s) (List.length (trace s)) with
    | Rejects error => (Returns (paymentFailed error), s1)
    | Resolves events =>
        match findEvent events eventId with
        | None => (Returns eventNotFound, s1)
        | Some event =>
            let p := chargeParams token eventId name email phone amount event
                       (toISOString W (List.length (trace s1))) in
            match stripe s with
            | None =>
                (Returns
                   (paymentFailed
                      {| type := None;
                         message := "Cannot read properties of null (reading 'charges')" |}),
                 s1)
            | Some _ =>
                match processor W p (List.length (trace s1)) with
                | Resolves charge =>
                    (Returns (if String.eqb (Charge.status charge) "succeeded"
                              then succeeded charge else notSuccessful),
                     record (ChargesCreate p) s1)
                | Rejects error =>
                    (Returns (paymentFailed error), record (ChargesCreate p) s1)
                end
            end
        end
    end.
Proof.
  intros (Ht & Hi & Hn & He & Hp & Ha) s1.
  cbv [process_payment try_catch bind ret get loadEvents await charges_create throw].
  rewrite Ht, Hi, Hn, He, Hp, Ha.
  destruct (amount <? 50)%float; [ reflexivity | ].
  destruct (eventsDocument W (eventsUrl s) (List.length (trace s)))
    as [events | error]; [ | reflexivity ].
  destruct (findEvent events eventId) as [event | ]; [ | reflexivity ].
  simpl. fold s1. destruct (stripe s); [ | reflexivity ].
  destruct (processor W _ _) as [charge | error]; [ | reflexivity ].
  destruct (String.eqb (Charge.status charge) "succeeded"); reflexivity.
Qed.

(** A request is either incomplete or complete. *)
Lemma incomplete_or_complete (body : Req.t) :
  incomplete body \/
  exists token eventId name email phone amount,
    complete body token eventId name email phone amount.
Proof.
  unfold incomplete, complete.
  destruct (present (Req.token body)) as [token | ]; [ | left; tauto ].
  destruct (present (Req.eventId body)) as [eventId | ]; [ | left; tauto ].
  destruct (present (Req.name body)) as [name | ]; [ | left; tauto ].
  destruct (present (Req.email body)) as [email | ]; [ | left; tauto ].
  destruct (present (Req.phone body)) as [phone | ]; [ | left; tauto ].
  destruct (presentNumber (Req.amount body)) as [amount | ]; [ | left; tauto ].
  right. exists token, eventId, name, email, phone, amount. repeat split.
Qed.

(** C6: [/process-payment] checks the request before it calls the
    processor.  A request that lacks one of [token], [eventId], [name],
    [email], [phone], [amount] is answered with the missing-fields error.  A
    request with an amount below 50 is answered with an error, the
    amount-too-small error when the request is complete.  A complete request
    of at least 50 for an event the catalog does not hold is answered with
    the event-not-found error.  In none of these cases is a charge
    submitted; in the first two no outbound call is made at all. *)
Theorem preconditions_before_charge (body : Req.t) (s : State) :
  (incomplete body -> process_payment W body s = (Returns missingFields, s)) /\
  (forall amount : float,
     Req.amount body = Some amount -> (amount <? 50)%float = true ->
     (process_payment W body s = (Returns missingFields, s) \/
      process_payment W body s = (Returns amountTooSmall, s)) /\
     (forall token eventId name email phone x,
        complete body token eventId name email phone x ->
        process_payment W body s = (Returns amountTooSmall, s))) /\
  (forall token eventId name email phone amount events,
     complete body token eventId name email phone amount ->
     (amount <? 50)%float = false ->
     eventsDocument W (eventsUrl s) (List.length (trace s)) = Resolves events ->
     ~ In eventId (map Event.eventId events) ->
     fst (process_payment W body s) = Returns eventNotFound /\
     charges (trace (snd (process_payment W body s))) = charges (trace s)).
Proof.
  split; [ apply process_payment_missing | split ].
  - intros amount Ha Hsmall.
    assert (Hx : forall token eventId name email phone x,
               complete body token eventId name email phone x ->
               process_payment W body s = (Returns amountTooSmall, s)).
    { intros token eventId name email phone x Hc.
      rewrite (process_payment_present body s _ _ _ _ _ _ Hc).
      destruct Hc as (_ & _ & _ & _ & _ & Hc).
      rewrite Ha in Hc. simpl in Hc.
      destruct (Number.falsy amount); [ discriminate | ].
      injection Hc as <-. now rewrite Hsmall. }
    split; [ | exact Hx ].
    destruct (incomplete_or_complete body)
      as [Hi | (token & eventId & name & email & phone & x & Hc)].
    + left. now apply process_payment_missing.
    + right. eapply Hx. eassumption.
  - intros token eventId name email phone amount events Hc Hbig Hdoc Habsent.
    rewrite (process_payment_present body s _ _ _ _ _ _ Hc).
    rewrite Hbig, Hdoc, (findEvent_absent events eventId Habsent).
    split; reflexivity.
Qed.

(** C10, as the code has it: the presence test comes first, so a request
    whose amount is absent, [0], [-0] or [NaN] is answered with the
    missing-fields error whatever its other members are; and the handler
    stops at the minimum-amount test, answering with the amount-too-small
    error, exactly when the request is complete and its amount is below 50,
    a negative amount included. *)
Theorem amount_too_small_iff (body : Req.t) (s : State) :
  (presentNumber (Req.amount body) = None ->
   process_payment W body s = (Returns missingFields, s)) /\
  (process_payment W body s = (Returns amountTooSmall, s) <->
   exists token eventId name email phone amount,
     complete body token eventId name email phone amount /\
     (amount <? 50)%float = true).
Proof.
  split.
  - intros H. apply process_payment_missing. unfold incomplete. tauto.
  - split.
    + intros H.
      destruct (incomplete_or_complete body)
        as [Hi | (token & eventId & name & email & phone & amount & Hc)].
      * rewrite (process_payment_missing body s Hi) in H. discriminate.
      * exists token, eventId, name, email, phone, amount.
        split; [ assumption | ].
        rewrite (process_payment_present body s _ _ _ _ _ _ Hc) in H.
        destruct (amount <? 50)%float; [ reflexivity | exfalso ].
        assert (Hs : forall (r : Outcome Response) (c : Effect) (t : State),
                   (r, record c t) = (Returns amountTooSmall, s) ->
                   trace s = c :: trace t).
        { intros r c t E. injection E as _ <-. reflexivity. }
        destruct (eventsDocument W (eventsUrl s) (List.length (trace s)))
          as [events | error].
        2:{ apply Hs in H. apply (f_equal (@List.length Effect)) in H.
            simpl in H. lia. }
        destruct (findEvent events eventId) as [event | ].
        2:{ apply Hs in H. apply (f_equal (@List.length Effect)) in H.
            simpl in H. lia. }
        cbv zeta in H. destruct (stripe s).
        2:{ apply Hs in H. apply (f_equal (@List.length Effect)) in H.
            simpl in H. lia. }
        destruct (processor W _ _); apply Hs in H;
          apply (f_equal (@List.length Effect)) in H; simpl in H; lia.
    + intros (token & eventId & name & email & phone & amount & Hc & Hsmall).
      rewrite (process_payment_present body s _ _ _ _ _ _ Hc).
      now rewrite Hsmall.
Qed.

End ProcessPayment.

(** A complete request with the amount [-5]: the answer is the
    amount-too-small error, and [-5] is not above 0. *)
Lemma negative_amount_too_small :
  process_payment W0 (request (Some (-5)%float)) (started W0) =
    (Returns amountTooSmall, started W0) /\
  (0 <? -5)%float = false.
Proof. split; reflexivity. Qed.

(** And with the amount [0] the answer is the missing-fields error. *)
Lemma zero_amount_missing :
  process_payment W0 (request (Some 0%float)) (started W0) =
    (Returns missingFields, started W0).
Proof. reflexivity. Qed.

(** An amount of 49 is turned down with no outbound call; a form for an
    event the catalog does not hold is turned down after the catalog has been
    fetched, with no charge. *)
Example amount_49_too_small :
  process_payment W0 (request (Some 49%float)) (started W0) =
    (Returns amountTooSmall, started W0).
Proof. reflexivity. Qed.

Example unknown_event_no_charge :
  let r := process_payment W0
             {| Req.token := Some "tok_visa"; Req.eventId := Some "RS1999";
                Req.name := Some "Ada Lovelace"; Req.email := Some "ada@example.org";
                Req.phone := Some "+44 20 7946 0000"; Req.amount := Some 29900%float |}
             (started W0) in
  fst r = Returns eventNotFound /\ charges (trace (snd r)) = [].
Proof. split; reflexivity. Qed.

(** ** The outcome of a charge *)

Section ChargeOutcome.

Variable W : World.

Variables (body : Req.t) (s : State).
Variables (token eventId name email phone : string) (amount : float).
Variables (events : list Event.t) (event : Event.t).

(** The request passes every check and the client is there: the charge is
    submitted. *)
Hypothesis Hcomplete : complete body token eventId name email phone amount.
Hypothesis Hamount : (amount <? 50)%float = false.
Hypothesis Hevents :
  eventsDocument W (eventsUrl s) (List.length (trace s)) = Resolves events.
Hypothesis Hevent : findEvent events eventId = Some event.
Hypothesis Hstripe : stripe s <> None.

Let s1 : State := record (HttpsGet (eventsUrl s)) s.

Let p : Params.t :=
  chargeParams token eventId name email phone amount event
    (toISOString W (List.length (trace s1))).

Lemma process_payment_submits :
  process_payment W body s =
  match processor W p (List.length (trace s1)) with
  | Resolves charge =>
      (Returns (if String.eqb (Charge.status charge) "succeeded"
                then succeeded charge else notSuccessful),
       record (ChargesCreate p) s1)
  | Rejects error => (Returns (paymentFailed error), record (ChargesCreate p) s1)
  end.
Proof.
  rewrite (process_payment_present W body s _ _ _ _ _ _ Hcomplete).
  rewrite Hamount, Hevents, Hevent. cbv zeta. fold s1. fold p.
  destruct (stripe s); [ reflexivity | congruence ].
Qed.

(** C7, as the code has it: when the processor returns a charge, a status
    [succeeded] is answered with [success: true], the charge's id and its
    receipt URL; any other status is answered, with status 400, by
    [success: false] and the message [Payment was not successful], an
    object that has no other member. *)
Theorem charge_status_classified (charge : Charge.t) :
  processor W p (List.length (trace s1)) = Resolves charge ->
  (Charge.status charge = "succeeded" ->
   fst (process_payment W body s) =
     Returns (res_json 200 [("success", JBool true);
                            ("chargeId", JStr (Charge.id charge));
                            ("receiptUrl", receiptUrl charge)])) /\
  (Charge.status charge <> "succeeded" ->
   fst (process_payment W body s) =
     Returns (res_json 400 [("success", JBool false);
                            ("error", JStr "Payment was not successful")])).
Proof.
  intros Hcharge. rewrite process_payment_submits, Hcharge. simpl.
  destruct (String.eqb_spec (Charge.status charge) "succeeded") as [E | E];
    split; intros H; try reflexivity; congruence.
Qed.

(** C8, as the code has it: an error raised by the charge creation is
    answered, with status 400, by [success: false] and a message chosen by
    the error's [type]: the error's own message for a card error, a fixed
    message for an invalid-request error, another for an API error, and for
    any other error a third fixed message, whatever the error says.  The
    answer has no member but these two. *)
Theorem processor_error_mapped (error : Error) :
  processor W p (List.length (trace s1)) = Rejects error ->
  fst (process_payment W body s) =
    Returns (res_json 400 [("success", JBool false);
                           ("error", JStr (errorMessage error))]) /\
  (type error = Some "StripeCardError" -> errorMessage error = message error) /\
  (type error = Some "StripeInvalidRequestError" ->
   errorMessage error = "Invalid payment information") /\
  (type error = Some "StripeAPIError" ->
   errorMessage error = "Payment service temporarily unavailable") /\
  (type error <> Some "StripeCardError" ->
   type error <> Some "StripeInvalidRequestError" ->
   type error <> Some "StripeAPIError" ->
   errorMessage error = "Payment failed. Please try again.").
Proof.
  intros Herror. rewrite process_payment_submits, Herror.
  split; [ reflexivity | ].
  unfold errorMessage. destruct (type error) as [t | ].
  - repeat split; intros H; try (injection H as ->; reflexivity).
    intros H1 H2.
    destruct (String.eqb_spec t "StripeCardError"); [ congruence | ].
    destruct (String.eqb_spec t "StripeInvalidRequestError"); [ congruence | ].
    destruct (String.eqb_spec t "StripeAPIError"); [ congruence | reflexivity ].
  - repeat split; intros H; try discriminate; intros; reflexivity.
Qed.

End ChargeOutcome.

(** The scenario of a charge [ch_123] that succeeded. *)
Lemma charge_status_classified_ch_123 :
  (Charge.status ch_123 = "succeeded" ->
   fst (process_payment W0 (request (Some 29900%float)) (started W0)) =
     Returns (res_json 200 [("success", JBool true);
                            ("chargeId", JStr "ch_123");
                            ("receiptUrl", JStr "https://pay.stripe.com/receipts/ch_123")])) /\
  (Charge.status ch_123 <> "succeeded" ->
   fst (process_payment W0 (request (Some 29900%float)) (started W0)) =
     Returns (res_json 400 [("success", JBool false);
                            ("error", JStr "Payment was not successful")])).
Proof.
  apply (charge_status_classified W0 (request (Some 29900%float)) (started W0)
           "tok_visa" "RS2025AI" "Ada Lovelace" "ada@example.org"
           "+44 20 7946 0000" 29900%float [RS2025AI] RS2025AI).
  - repeat split.
  - reflexivity.
  - reflexivity.
  - reflexivity.
  - discriminate.
  - reflexivity.
Defined.

(** A charge that comes back [pending]: the answer has [success: false] and
    the message, and no member [errorCategory]. *)
Lemma unsettled_charge_has_no_category :
  let r := process_payment (world (Resolves ch_456)) (request (Some 29900%float))
             (started (world (Resolves ch_456))) in
  fst r = Returns notSuccessful /\
  member "success" notSuccessful = Some (JBool false) /\
  member "error" notSuccessful = Some (JStr "Payment was not successful") /\
  member "errorCategory" notSuccessful = None /\
  member "errorCategory" notSuccessful <> Some (JStr "ProcessorDeclined").
Proof. cbv zeta. repeat split. discriminate. Qed.

(** The scenario of a card that was declined. *)
Lemma processor_error_mapped_declined :
  let W := world (Rejects cardDeclined) in
  fst (process_payment W (request (Some 29900%float)) (started W)) =
    Returns (res_json 400 [("success", JBool false);
                           ("error", JStr "Your card was declined.")]) /\
  (type cardDeclined = Some "StripeCardError" ->
   errorMessage cardDeclined = message cardDeclined) /\
  (type cardDeclined = Some "StripeInvalidRequestError" ->
   errorMessage cardDeclined = "Invalid payment information") /\
  (type cardDeclined = Some "StripeAPIError" ->
   errorMessage cardDeclined = "Payment service temporarily unavailable") /\
  (type cardDeclined <> Some "StripeCardError" ->
   type cardDeclined <> Some "StripeInvalidRequestError" ->
   type cardDeclined <> Some "StripeAPIError" ->
   errorMessage cardDeclined = "Payment failed. Please try again.").
Proof.
  apply (processor_error_mapped (world (Rejects cardDeclined))
           (request (Some 29900%float)) (started (world (Rejects cardDeclined)))
           "tok_visa" "RS2025AI" "Ada Lovelace" "ada@example.org"
           "+44 20 7946 0000" 29900%float [RS2025AI] RS2025AI)
    with (error := cardDeclined).
  - repeat split.
  - reflexivity.
  - reflexivity.
  - reflexivity.
  - discriminate.
  - reflexivity.
Defined.

(** The answer to a declined card carries the message and nothing that names
    a category; and a card error worded like the fixed message of an
    invalid-request error is answered exactly as that error is, so the kind
    of the error cannot be read off the answer. *)
Lemma card_error_has_no_category :
  let answer (e : Error) :=
    fst (process_payment (world (Rejects e)) (request (Some 29900%float))
           (started (world (Rejects e)))) in
  answer cardDeclined = Returns (failure 400 "Your card was declined.") /\
  member "errorCategory" (failure 400 "Your card was declined.") = None /\
  member "errorCategory" (failure 400 "Your card was declined.")
    <> Some (JStr "CardError") /\
  member "errorMessage" (failure 400 "Your card was declined.") = None /\
  answer (cardError "Invalid payment information") = answer invalidRequest.
Proof. cbv zeta. repeat split. discriminate. Qed.

(** ** From the resolved amount to the charge *)

(** A page that is rendered carries, as the amount of its script, its price
    times 100, and the identifier of the request. *)
Lemma payment_page_renders (W : World) (s : State) (eventId : string)
    (pay : option string) (c : Checkout.t) :
  response (payment_page W eventId pay s) =
    Some {| statusCode := 200; body := Page c |} ->
  Checkout.amount c = (Checkout.eventCost c * 100)%float /\
  Checkout.eventId c = eventId.
Proof.
  cbv [payment_page try_catch bind loadEvents get await ret response fst].
  destruct (eventsDocument W (eventsUrl s) (List.length (trace s))) as [events | e];
    [ | discriminate ].
  destruct (findEvent events eventId) as [event | ]; [ | discriminate ].
  destruct (truthy pay).
  - destruct (Number.isNaN _ || _); [ discriminate | ].
    destruct (_ || _); [ discriminate | ].
    intros H. injection H as <-. split; reflexivity.
  - intros H. injection H as <-. split; reflexivity.
Qed.


(** The amount that reaches [/process-payment] from the script of a page,
    when it passes the presence test, is the amount of the script, and it is
    finite. *)
Lemma submitForm_amount (c : Checkout.t) (token fullName email phone : string)
    (amount : float) :
  presentNumber (Req.amount (submitForm c token fullName email phone)) = Some amount ->
  amount = Checkout.amount c /\ is_finite amount = true.
Proof.
  unfold submitForm, overJSON, literal, presentNumber, Number.falsy. simpl.
  destruct (is_zero (Checkout.amount c)) eqn:Ez.
  - replace (is_finite zero) with true by reflexivity.
    replace (is_zero zero) with true by reflexivity. discriminate.
  - destruct (is_finite (Checkout.amount c)) eqn:Ef; [ | discriminate ].
    rewrite Ez. simpl.
    destruct (is_nan (Checkout.amount c)); [ discriminate | ].
    intros H. injection H as <-. split; [ reflexivity | assumption ].
Qed.




(** * Further properties *)

(** ** Numbers at the minimum charge *)

Section Minimum.

Local Open Scope Z_scope.

Lemma ltb_false_leb (a b : float) :
  Number.isNaN a = false -> Number.isNaN b = false ->
  (a <? b)%float = false -> (b <=? a)%float = true.
Proof.
  intros Ha Hb. rewrite leb_spec, ltb_spec. unfold SFleb, SFltb.
  rewrite (SFcompare_antisym (Prim2SF a) (Prim2SF b)).
  destruct (SFcompare (Prim2SF a) (Prim2SF b)) as [[ | | ] | ] eqn:E;
    simpl; try congruence.
  assert (Prim2SF a = S754_nan \/ Prim2SF b = S754_nan) as [H | H].
  { destruct (Prim2SF a), (Prim2SF b); simpl in E; try discriminate; auto. }
  - apply isNaN_spec in H. congruence.
  - apply isNaN_spec in H. congruence.
Qed.

Lemma compare_cont_Eq (p q : positive) :
  PosDef.Pos.compare_cont Eq p q = (Zpos p ?= Zpos q).
Proof.
  change (PosDef.Pos.compare_cont Eq p q) with (Pos.compare_cont Eq p q).
  rewrite Pos.compare_cont_spec. change (Zpos p ?= Zpos q) with (p ?= q)%positive.
  now destruct (p ?= q)%positive.
Qed.

(** The order of two positive numbers, read on exponents and mantissas. *)
Lemma SFleb_finite (s2 : bool) (m1 m2 : positive) (e1 e2 : Z) :
  SFleb (S754_finite false m1 e1) (S754_finite s2 m2 e2) = true ->
  s2 = false /\ (e1 < e2 \/ (e1 = e2 /\ Zpos m1 <= Zpos m2)).
Proof.
  unfold SFleb, SFcompare. intros H. destruct s2; [ discriminate | ].
  split; [ reflexivity | ].
  destruct (Z.compare_spec e1 e2) as [E | E | E]; [ | now left | discriminate ].
  right. split; [ assumption | ].
  rewrite compare_cont_Eq in H.
  destruct (Z.compare_spec (Zpos m1) (Zpos m2)); try lia; discriminate.
Qed.

Lemma SFltb_finite_false (m1 m2 : positive) (e1 e2 : Z) :
  e2 < e1 \/ (e1 = e2 /\ Zpos m2 <= Zpos m1) ->
  SFltb (S754_finite false m1 e1) (S754_finite false m2 e2) = false.
Proof.
  intros H. unfold SFltb, SFcompare.
  destruct (Z.compare_spec e1 e2) as [E | E | E]; try lia; try reflexivity.
  rewrite compare_cont_Eq.
  destruct (Z.compare_spec (Zpos m1) (Zpos m2)); try lia; reflexivity.
Qed.

(** The Number value of a positive integer of at most 53 bits, with its
    mantissa and exponent. *)
Lemma binary_round_value (s : bool) (q : positive) :
  Zpos q < 2 ^ 53 ->
  exists mz ez,
    binary_round prec emax s q 0 = S754_finite s mz ez /\
    valid_binary (S754_finite s mz ez) = true /\
    -52 <= ez <= 0 /\
    Zpos mz = Zpos q * 2 ^ (- ez) /\
    Zpos mz < 2 ^ 53.
Proof.
  intros Hq.
  pose proof (digits2_pos_bound q 53 ltac:(lia) Hq) as Hd.
  assert (Hd0 : 0 < Zpos (digits2_pos q)) by lia.
  unfold binary_round.
  assert (Hf : fexp prec emax (Zpos (digits2_pos q) + 0) = Zpos (digits2_pos q) - 53).
  { unfold fexp, SpecFloat.emin, prec, emax. lia. }
  rewrite Hf. unfold shl_align.
  destruct (Zpos (digits2_pos q) - 53 - 0) as [ | k | k] eqn:Ek; try lia.
  - assert (E : Zpos (digits2_pos q) = 53) by lia.
    exists q, 0.
    rewrite (binary_round_aux_exact s q 0 E) by lia.
    rewrite (valid_binary_exact s q 0 E) by lia.
    repeat split; try lia.
  - set (mz := Pos.iter xO q k). set (ez := Zpos (digits2_pos q) - 53).
    assert (Edig : Zpos (digits2_pos mz) = 53).
    { unfold mz. rewrite iter_xO_digits, Pos2Z.inj_add. lia. }
    exists mz, ez.
    rewrite (binary_round_aux_exact s mz ez Edig) by (unfold ez; lia).
    rewrite (valid_binary_exact s mz ez Edig) by (unfold ez; lia).
    repeat split; try (unfold ez; lia).
    + unfold mz. rewrite iter_xO_value. f_equal. f_equal. unfold ez. lia.
    + pose proof (digits2_pos_gt mz) as H. now rewrite Edig in H.
Qed.

(** [Math.round] does not take a number that is at least 50 below 50. *)
Lemma round_at_least_50 (x : float) :
  (50 <=? x)%float = true ->
  (Math.round x <? 50)%float = false /\ Number.isNaN (Math.round x) = false.
Proof.
  intros Hx.
  assert (Hkeep : (x <? 50)%float = false /\ Number.isNaN x = false).
  { split; [ now apply leb_not_gtb | ].
    destruct (Number.isNaN x) eqn:En; [ | reflexivity ].
    apply isNaN_spec in En. rewrite leb_spec, En in Hx. discriminate. }
  pose proof (Prim2SF_valid x) as Hv.
  pose proof Hx as Hx'. rewrite leb_spec in Hx'.
  replace (Prim2SF 50) with (S754_finite false 7036874417766400 (-47)) in Hx'
    by reflexivity.
  unfold Math.round.
  destruct (Prim2SF x) as [s | s | | s m e] eqn:E; try exact Hkeep.
  destruct (0 <=? e) eqn:He; [ exact Hkeep | ].
  apply Z.leb_gt in He.
  destruct (SFleb_finite _ _ _ _ _ Hx') as [-> Hord]. simpl cond_Zopp.
  (* the mantissa has 53 bits *)
  simpl in Hv. unfold bounded, canonical_mantissa in Hv.
  apply andb_true_iff in Hv. destruct Hv as [Hc _]. apply Z.eqb_eq in Hc.
  assert (Hd : Zpos (digits2_pos m) = 53).
  { unfold fexp, SpecFloat.emin, prec, emax in Hc. lia. }
  pose proof (digits2_pos_le m) as Hmlo. pose proof (digits2_pos_gt m) as Hmhi.
  rewrite Hd in Hmlo, Hmhi. change (53 - 1) with 52 in Hmlo.
  set (n := (Zpos m + 2 ^ (- e - 1)) / 2 ^ (- e)).
  assert (Hpow : 0 < 2 ^ (- e)) by (apply Z.pow_pos_nonneg; lia).
  assert (Hhalf : 0 < 2 ^ (- e - 1)) by (apply Z.pow_pos_nonneg; lia).
  assert (Hn50 : 50 <= n).
  { unfold n. apply Z.div_le_lower_bound; [ assumption | ].
    destruct Hord as [Hlt | [Heq Hm]].
    - assert (2 ^ (- e) <= 2 ^ 46) by (apply Z.pow_le_mono_r; lia).
      change (2 ^ 52) with (64 * 2 ^ 46) in Hmlo. lia.
    - subst e. change (2 ^ (- -47)) with 140737488355328.
      change (2 ^ (- -47 - 1)) with 70368744177664. lia. }
  assert (Hnhi : - 2 ^ 53 < n < 2 ^ 53).
  { unfold n. apply (round_bound (Zpos m) (- e)); lia. }
  replace (n =? 0) with false by (symmetry; apply Z.eqb_neq; lia).
  destruct n as [ | q | q] eqn:En; try lia.
  unfold Number.ofZ, binary_normalize.
  destruct (binary_round_value false q ltac:(lia))
    as (mz & ez & -> & Hvalid & Hez & Hmz & Hmzhi).
  assert (Hres : -47 < ez \/ (ez = -47 /\ 7036874417766400 <= Zpos mz)).
  { destruct (Z.lt_ge_cases (-47) ez) as [ | Hle]; [ now left | right ].
    assert (Hp : 2 ^ 47 <= 2 ^ (- ez)) by (apply Z.pow_le_mono_r; lia).
    assert (Hez47 : ez = -47).
    { destruct (Z.eq_dec ez (-47)) as [ | Hne]; [ assumption | exfalso ].
      assert (2 ^ 48 <= 2 ^ (- ez)) by (apply Z.pow_le_mono_r; lia).
      change (2 ^ 53) with (32 * 2 ^ 48) in Hmzhi. nia. }
    split; [ assumption | ].
    subst ez. change (2 ^ (- -47)) with 140737488355328 in Hmz. lia. }
  split.
  - rewrite ltb_spec, (Prim2SF_SF2Prim _ Hvalid).
    replace (Prim2SF 50) with (S754_finite false 7036874417766400 (-47))
      by reflexivity.
    apply SFltb_finite_false. destruct Hres as [H | [H1 H2]]; [ left | right ]; lia.
  - destruct (Number.isNaN (SF2Prim (S754_finite false mz ez))) eqn:En';
      [ | reflexivity ].
    apply isNaN_spec in En'. rewrite (Prim2SF_SF2Prim _ Hvalid) in En'. discriminate.
Qed.

End Minimum.

(** ** Every request to [/process-payment] *)

Lemma present_some (o : option string) (x : string) :
  present o = Some x -> o = Some x /\ x <> EmptyString.
Proof.
  unfold present, truthy. destruct o as [str | ]; [ | discriminate ].
  destruct str; simpl; [ discriminate | ].
  intros H. injection H as <-. split; [ reflexivity | discriminate ].
Qed.

Lemma presentNumber_some (o : option float) (x : float) :
  presentNumber o = Some x ->
  o = Some x /\ Number.isNaN x = false /\ is_zero x = false.
Proof.
  unfold presentNumber, Number.falsy, Number.isNaN.
  destruct o as [y | ]; [ | discriminate ].
  destruct (is_zero y) eqn:Ez; simpl; [ discriminate | ].
  destruct (is_nan y) eqn:En; [ discriminate | ].
  intros H. injection H as <-. auto.
Qed.

(** [Math.round] leaves a number that is not finite as it is. *)
Lemma round_not_finite (x : float) :
  is_finite x = false -> Math.round x = x.
Proof.
  intros H. unfold Math.round.
  destruct (Prim2SF x) as [s | s | | s m e] eqn:E; try reflexivity.
  exfalso. revert H. unfold is_finite, is_nan, is_infinity.
  rewrite !eqb_spec, abs_spec, E. unfold SFeqb.
  rewrite SFcompare_refl by discriminate.
  replace (Prim2SF infinity) with (S754_infinity false) by reflexivity.
  discriminate.
Qed.

Section EveryPayment.

Variable W : World.

(** The charge of a complete request of at least 50 is well formed. *)
Lemma chargeParams_wellFormed (body : Req.t) (token eventId name email phone : string)
    (amount : float) (event : Event.t) (at_ : string) :
  complete body token eventId name email phone amount ->
  (amount <? 50)%float = false ->
  wellFormed (chargeParams token eventId name email phone amount event at_).
Proof.
  intros (Ht & _ & _ & He & _ & Ha) Hbig.
  apply present_some in Ht, He. apply presentNumber_some in Ha.
  destruct Ht as [_ Ht], He as [_ He], Ha as (_ & Hnan & _).
  assert (H50 : (50 <=? amount)%float = true).
  { apply ltb_false_leb; [ assumption | reflexivity | assumption ]. }
  destruct (round_at_least_50 amount H50) as [Hlt Hn].
  unfold wellFormed. simpl. repeat split; try assumption.
  intros Hfin. destruct (is_finite amount) eqn:Ef.
  - now apply round_isInteger.
  - rewrite (round_not_finite amount Ef) in Hfin. congruence.
Qed.

(** The outbound calls of one payment request whose members are five
    strings and a number: none; or the fetch of the catalog; or that fetch
    and then one charge, which is well formed.  The module-level variables
    are left as they were. *)
Theorem payment_outbound_calls (body : Req.t) (s : State) :
  let s1 := record (HttpsGet (eventsUrl s)) s in
  let r := process_payment W body s in
  snd r = s \/ snd r = s1 \/
  exists p : Params.t, snd r = record (ChargesCreate p) s1 /\ wellFormed p.
Proof.
  intros s1 r. subst r.
  destruct (incomplete_or_complete body)
    as [Hi | (token & eventId & name & email & phone & amount & Hc)].
  - rewrite (process_payment_missing W body s Hi). now left.
  - rewrite (process_payment_present W body s _ _ _ _ _ _ Hc). fold s1.
    destruct (amount <? 50)%float eqn:Hbig; [ now left | ].
    destruct (eventsDocument W (eventsUrl s) (List.length (trace s)))
      as [events | error]; [ | now (right; left) ].
    destruct (findEvent events eventId) as [event | ]; [ | now (right; left) ].
    cbv zeta. destruct (stripe s); [ | now (right; left) ].
    right. right. eexists. split.
    + destruct (processor W _ _); reflexivity.
    + eapply chargeParams_wellFormed; eassumption.
Qed.

(** An answer that says [success: true], or has status 200, is the answer
    to a complete request of at least 50 whose event was found in the
    catalog fetched for it and whose charge the processor settled as
    [succeeded]; it carries the id of that charge. *)
Theorem success_means_charged (body : Req.t) (s : State) (answer : Response) :
  fst (process_payment W body s) = Returns answer ->
  statusCode answer = 200%Z \/ member "success" answer = Some (JBool true) ->
  exists token eventId name email phone amount events event charge,
    complete body token eventId name email phone amount /\
    (amount <? 50)%float = false /\
    eventsDocument W (eventsUrl s) (List.length (trace s)) = Resolves events /\
    findEvent events eventId = Some event /\
    let s1 := record (HttpsGet (eventsUrl s)) s in
    let p := chargeParams token eventId name email phone amount event
               (toISOString W (List.length (trace s1))) in
    snd (process_payment W body s) = record (ChargesCreate p) s1 /\
    processor W p (List.length (trace s1)) = Resolves charge /\
    Charge.status charge = "succeeded" /\
    answer = succeeded charge.
Proof.
  intros Hr Hok.
  assert (Hfail : forall code msg, answer = failure code msg -> code <> 200%Z -> False).
  { intros code msg -> Hcode. destruct Hok as [H | H]; [ | discriminate ].
    simpl in H. congruence. }
  destruct (incomplete_or_complete body)
    as [Hi | (token & eventId & name & email & phone & amount & Hc)].
  - rewrite (process_payment_missing W body s Hi) in Hr. injection Hr as <-.
    exfalso. now apply (Hfail 400%Z "Missing required fields").
  - rewrite (process_payment_present W body s _ _ _ _ _ _ Hc) in *.
    destruct (amount <? 50)%float eqn:Hbig.
    { injection Hr as <-. exfalso. now apply (Hfail 400%Z "Amount too small"). }
    destruct (eventsDocument W (eventsUrl s) (List.length (trace s)))
      as [events | error] eqn:Hdoc.
    2:{ injection Hr as <-. exfalso.
        now apply (Hfail 400%Z (errorMessage error)). }
    destruct (findEvent events eventId) as [event | ] eqn:Hfind.
    2:{ injection Hr as <-. exfalso.
        now apply (Hfail 404%Z "Conference event not found"). }
    cbv zeta in *. destruct (stripe s).
    2:{ injection Hr as <-. exfalso. eapply (Hfail 400%Z); [ reflexivity | discriminate ]. }
    destruct (processor W _ _) as [charge | error] eqn:Hcharge.
    2:{ injection Hr as <-. exfalso.
        now apply (Hfail 400%Z (errorMessage error)). }
    destruct (String.eqb_spec (Charge.status charge) "succeeded") as [Hs | Hs].
    2:{ injection Hr as <-. exfalso.
        now apply (Hfail 400%Z "Payment was not successful"). }
    injection Hr as <-.
    exists token, eventId, name, email, phone, amount, events, event, charge.
    split; [ exact Hc | ]. repeat split; try assumption; reflexivity.
Qed.

End EveryPayment.

(** The request of 29900 for the event [RS2025AI] is answered with
    [success: true] and the id [ch_123]. *)
Lemma success_means_charged_ch_123 :
  exists token eventId name email phone amount events event charge,
    complete (request (Some 29900%float)) token eventId name email phone amount /\
    (amount <? 50)%float = false /\
    eventsDocument W0 (eventsUrl (started W0)) (List.length (trace (started W0))) =
      Resolves events /\
    findEvent events eventId = Some event /\
    let s1 := record (HttpsGet (eventsUrl (started W0))) (started W0) in
    let p := chargeParams token eventId name email phone amount event
               (toISOString W0 (List.length (trace s1))) in
    snd (process_payment W0 (request (Some 29900%float)) (started W0)) =
      record (ChargesCreate p) s1 /\
    processor W0 p (List.length (trace s1)) = Resolves charge /\
    Charge.status charge = "succeeded" /\
    succeeded ch_123 = succeeded charge.
Proof.
  exact (success_means_charged W0 (request (Some 29900%float)) (started W0)
           (succeeded ch_123) eq_refl (or_introl eq_refl)).
Defined.

(** Two states whose histories differ in length are different. *)
Ltac trace_clash H :=
  apply (f_equal (fun x : State => List.length (trace x))) in H; simpl in H; lia.

Section ChargeContents.

Variable W : World.

(** The charge a request leads to is made of the request and of the
    catalog, not of anything else: the token, the customer's name, email and
    phone and the identifier are those of the request, the amount is the
    request's amount rounded, and the event's name, in the metadata and in
    the description, is that of the first event of the fetched catalog with
    this identifier. *)
Theorem charge_describes_request (body : Req.t) (s : State) (p : Params.t) :
  snd (process_payment W body s) =
    record (ChargesCreate p) (record (HttpsGet (eventsUrl s)) s) ->
  exists events event amount,
    eventsDocument W (eventsUrl s) (List.length (trace s)) = Resolves events /\
    findEvent events (Params.eventId (Params.metadata p)) = Some event /\
    Params.eventName (Params.metadata p) = Event.eventName event /\
    Params.description p = "Research Summit Registration: " ++ Event.eventName event /\
    Req.eventId body = Some (Params.eventId (Params.metadata p)) /\
    Req.token body = Some (Params.source p) /\
    Req.name body = Some (Params.customerName (Params.metadata p)) /\
    Req.email body = Some (Params.customerEmail (Params.metadata p)) /\
    Req.phone body = Some (Params.customerPhone (Params.metadata p)) /\
    Req.amount body = Some amount /\
    Params.amount p = Math.round amount /\
    Params.processed_at (Params.metadata p) =
      toISOString W (S (List.length (trace s))).
Proof.
  intros H.
  destruct (incomplete_or_complete body)
    as [Hi | (token & eventId & name & email & phone & amount & Hc)].
  - rewrite (process_payment_missing W body s Hi) in H. simpl in H. trace_clash H.
  - rewrite (process_payment_present W body s _ _ _ _ _ _ Hc) in H.
    destruct (amount <? 50)%float; [ simpl in H; trace_clash H | ].
    destruct (eventsDocument W (eventsUrl s) (List.length (trace s)))
      as [events | error]; [ | simpl in H; trace_clash H ].
    destruct (findEvent events eventId) as [event | ] eqn:Hfind;
      [ | simpl in H; trace_clash H ].
    cbv zeta in H. destruct (stripe s); [ | simpl in H; trace_clash H ].
    assert (Hp : p = chargeParams token eventId name email phone amount event
                       (toISOString W (S (List.length (trace s))))).
    { destruct (processor W _ _); simpl in H;
        apply (f_equal trace) in H; simpl in H; now injection H as <-. }
    destruct Hc as (Ht & Hid & Hn & He & Hph & Ha).
    apply present_some in Ht, Hid, Hn, He, Hph. apply presentNumber_some in Ha.
    exists events, event, amount. subst p. simpl.
    repeat split; try tauto; exact Hfind.
Qed.

(** When the catalog cannot be fetched, no charge is submitted, and the
    answer to a request that passed the checks is the failure worded by the
    [catch] block, which for an error without a [type] is the fixed
    message. *)
Theorem catalog_failure_no_charge (body : Req.t) (s : State) (error : Error) :
  eventsDocument W (eventsUrl s) (List.length (trace s)) = Rejects error ->
  let r := process_payment W body s in
  charges (trace (snd r)) = charges (trace s) /\
  (fst r = Returns missingFields \/ fst r = Returns amountTooSmall \/
   fst r = Returns (failure 400 (errorMessage error))) /\
  (type error = None ->
   errorMessage error = "Payment failed. Please try again.").
Proof.
  intros Hdoc r. subst r.
  split; [ | split ].
  - destruct (incomplete_or_complete body)
      as [Hi | (token & eventId & name & email & phone & amount & Hc)].
    + now rewrite (process_payment_missing W body s Hi).
    + rewrite (process_payment_present W body s _ _ _ _ _ _ Hc), Hdoc.
      now destruct (amount <? 50)%float.
  - destruct (incomplete_or_complete body)
      as [Hi | (token & eventId & name & email & phone & amount & Hc)].
    + rewrite (process_payment_missing W body s Hi). now left.
    + rewrite (process_payment_present W body s _ _ _ _ _ _ Hc), Hdoc.
      destruct (amount <? 50)%float; [ now (right; left) | now (right; right) ].
  - unfold errorMessage. now intros ->.
Qed.

End ChargeContents.

Section Handlers.

Variable W : World.

Lemma after_nil (s : State) : after [] s = s.
Proof. now destruct s. Qed.

Lemma after_record (call : Effect) (new : list Effect) (s : State) :
  record call (after new s) = after (call :: new) s.
Proof. reflexivity. Qed.

Lemma after_after (new old : list Effect) (s : State) :
  after new (after old s) = after (new ++ old) s.
Proof. unfold after. simpl. now rewrite app_assoc. Qed.

Lemma eventsUrl_after (new : list Effect) (s : State) :
  eventsUrl (after new s) = eventsUrl s.
Proof. reflexivity. Qed.

Lemma redirectUrl_after (new : list Effect) (s : State) :
  redirectUrl (after new s) = redirectUrl s.
Proof. reflexivity. Qed.

Lemma payment_page_run (eventId : string) (pay : option string) (s : State) :
  exists r : Response,
    payment_page W eventId pay s = (Returns r, record (HttpsGet (eventsUrl s)) s).
Proof.
  cbv [payment_page try_catch bind loadEvents get await ret].
  destruct (eventsDocument W (eventsUrl s) (List.length (trace s))) as [events | e];
    simpl; [ | eauto ].
  destruct (findEvent events eventId) as [event | ]; simpl; [ | eauto ].
  destruct (truthy pay); simpl; [ | eauto ].
  destruct (Number.isNaN _ || _); simpl; [ eauto | ].
  destruct (_ || _); eauto.
Qed.

Lemma api_events_run (s : State) :
  exists r : Response,
    api_events W s = (Returns r, record (HttpsGet (eventsUrl s)) s).
Proof.
  cbv [api_events try_catch bind loadEvents get await ret].
  destruct (eventsDocument W (eventsUrl s) (List.length (trace s))); simpl; eauto.
Qed.

Lemma api_event_run (eventId : string) (s : State) :
  exists r : Response,
    api_event W eventId s = (Returns r, record (HttpsGet (eventsUrl s)) s).
Proof.
  cbv [api_event try_catch bind loadEvents get await ret].
  destruct (eventsDocument W (eventsUrl s) (List.length (trace s))) as [events | e];
    simpl; [ | eauto ].
  destruct (findEvent events eventId); simpl; eauto.
Qed.

Lemma process_payment_run (body : Req.t) (s : State) :
  exists (r : Response) (new : list Effect),
    process_payment W body s = (Returns r, after new s) /\
    Forall (permitted s) new.
Proof.
  destruct (incomplete_or_complete body)
    as [Hi | (token & eventId & name & email & phone & amount & Hc)].
  - rewrite (process_payment_missing W body s Hi).
    exists missingFields, []. now rewrite after_nil.
  - rewrite (process_payment_present W body s _ _ _ _ _ _ Hc).
    assert (Hget : Forall (permitted s) [HttpsGet (eventsUrl s)]).
    { constructor; [ now left | constructor ]. }
    change (record (HttpsGet (eventsUrl s)) s)
      with (after [HttpsGet (eventsUrl s)] s).
    destruct (amount <? 50)%float eqn:Hbig.
    { exists amountTooSmall, []. now rewrite after_nil. }
    destruct (eventsDocument W (eventsUrl s) (List.length (trace s)))
      as [events | error]; [ | eauto ].
    destruct (findEvent events eventId) as [event | ]; [ | eauto ].
    cbv zeta. destruct (stripe s); [ | eauto ].
    match goal with
    | |- context [processor W ?p _] =>
        assert (Hp : Forall (permitted s) [ChargesCreate p; HttpsGet (eventsUrl s)])
    end.
    { constructor; [ | exact Hget ]. right. eexists. split; [ reflexivity | ].
      now apply (chargeParams_wellFormed body). }
    rewrite after_record.
    destruct (processor W _ _); eauto.
Qed.

(** What handling one request comes to: an answer, and a state that differs
    from the one before by the outbound calls made. *)
Lemma handle_run (req : Request) (s : State) :
  exists (a : Answer) (new : list Effect),
    handle W req s = (Returns a, after new s) /\ Forall (permitted s) new.
Proof.
  assert (Hget : Forall (permitted s) [HttpsGet (eventsUrl s)]).
  { constructor; [ now left | constructor ]. }
  destruct req as [ | eventId pay | now | body | | eventId | | ];
    cbv [handle sent home success_page api_health not_found bind get ret].
  - exists (Redirect (redirectUrl s)), []. now rewrite after_nil.
  - destruct (payment_page_run eventId pay s) as [r ->].
    exists (Sent r), [HttpsGet (eventsUrl s)]. now split.
  - exists (SuccessPage now (redirectUrl s)), []. now rewrite after_nil.
  - destruct (process_payment_run body s) as (r & new & -> & Hnew).
    exists (Sent r), new. now split.
  - destruct (api_events_run s) as [r ->].
    exists (Sent r), [HttpsGet (eventsUrl s)]. now split.
  - destruct (api_event_run eventId s) as [r ->].
    exists (Sent r), [HttpsGet (eventsUrl s)]. now split.
  - eexists _, []. now rewrite after_nil.
  - eexists _, []. now rewrite after_nil.
Qed.

Lemma permitted_after (new : list Effect) (s : State) (call : Effect) :
  permitted (after new s) call <-> permitted s call.
Proof. reflexivity. Qed.

(** The same for requests handled one after the other. *)
Lemma serve_run (reqs : list Request) (s : State) :
  exists (answers : list Answer) (new : list Effect),
    serve W reqs s = (map Returns answers, after new s) /\
    Forall (permitted s) new /\
    List.length answers = List.length reqs.
Proof.
  revert s. induction reqs as [ | req rest IH]; intros s.
  - exists [], []. now rewrite after_nil.
  - destruct (handle_run req s) as (a & new & Hh & Hnew).
    destruct (IH (after new s)) as (answers & more & Hs & Hmore & Hlen).
    exists (a :: answers), (more ++ new)%list. simpl.
    rewrite Hh, Hs, after_after. repeat split.
    + apply Forall_app. split; assumption.
    + now rewrite Hlen.
Qed.

End Handlers.

Section Startup.

Variable W : World.

Lemma initializeApp_run :
  configuration W <> Config.null ->
  initializeApp W initial = (Returns tt, listening W).
Proof.
  unfold listening, configuration.
  cbv [initializeApp getStripeConfig try_catch bind get put ret loadConfig await
       setCONFIG throw initial CONFIG trace List.length record Config.truthy].
  destruct (configDocument W 0) as [[ | | c] | e]; intros H;
    try reflexivity; now destruct H.
Qed.

Lemma initializeApp_null :
  configuration W = Config.null ->
  initializeApp W initial = (Returns tt, stopped).
Proof.
  unfold stopped, configuration.
  cbv [initializeApp getStripeConfig try_catch bind get put ret loadConfig await
       setCONFIG throw initial CONFIG trace List.length record Config.truthy].
  destruct (configDocument W 0) as [[ | | c] | e]; intros H;
    try discriminate; reflexivity.
Qed.

Lemma startServer_run :
  configuration W <> Config.null ->
  startServer W initial = (Returns tt, listening W).
Proof.
  intros H. unfold startServer, try_catch. now rewrite initializeApp_run.
Qed.

Lemma startServer_null :
  configuration W = Config.null ->
  startServer W initial = (Returns tt, stopped).
Proof.
  intros H. unfold startServer, try_catch. now rewrite initializeApp_null.
Qed.

Lemma lifetime_run (reqs : list Request) :
  configuration W <> Config.null ->
  lifetime W reqs = serve W reqs (listening W).
Proof.
  intros H. unfold lifetime. now rewrite startServer_run.
Qed.

Lemma lifetime_null (reqs : list Request) :
  configuration W = Config.null ->
  lifetime W reqs = ([], stopped).
Proof.
  intros H. unfold lifetime. now rewrite startServer_null.
Qed.

Lemma configuration_null_dec :
  configuration W = Config.null \/ configuration W <> Config.null.
Proof.
  destruct (configuration W); [ now left | right; discriminate | right; discriminate ].
Qed.

Lemma orElse_nonempty (a : option string) (b : string) :
  b <> EmptyString -> orElse a b <> EmptyString.
Proof.
  intros Hb. unfold orElse. destruct a as [x | ]; [ | assumption ].
  destruct (String.eqb x "") eqn:E; [ assumption | ].
  now apply String.eqb_neq in E.
Qed.

(** Startup does not fail on a configuration that is not [null].  Whether
    the fetch gives a document other than [null] or fails, [startServer]
    returns without [process.exit].  The server then listens after exactly
    one outbound call, the fetch of the configuration, with [CONFIG] holding
    the document, or the fallback when the fetch failed, and with a Stripe
    client and a publishable key that are not empty. *)
Theorem startup_never_exits :
  configuration W <> Config.null ->
  let s := snd (startServer W initial) in
  fst (startServer W initial) = Returns tt /\
  exited s = None /\
  trace s = [HttpsGet configUrl] /\
  CONFIG s = configuration W /\
  CONFIG s <> Config.null /\
  exists secretKey publishableKey : string,
    stripe s = Some secretKey /\ secretKey <> EmptyString /\
    stripePublishableKey s = Some publishableKey /\
    publishableKey <> EmptyString.
Proof.
  intros H. rewrite (startServer_run H). simpl.
  repeat split; try assumption.
  eexists _, _. repeat split; apply orElse_nonempty; discriminate.
Qed.

(** A configuration document that is [null] stops the server at startup.
    [CONFIG.stripe] throws in [getStripeConfig], the [catch] of
    [initializeApp] exits the process with code 1, no Stripe client is made,
    and no request is served. *)
Theorem null_configuration_stops_startup (reqs : list Request) :
  configDocument W 0 = Resolves Config.null ->
  let s := snd (startServer W initial) in
  (exists error : Error, fst (getStripeConfig W initial) = Throws error) /\
  exited s = Some 1%Z /\
  stripe s = None /\
  trace s = [HttpsGet configUrl] /\
  lifetime W reqs = ([], s).
Proof.
  intros Hdoc.
  assert (H : configuration W = Config.null).
  { unfold configuration. now rewrite Hdoc. }
  rewrite (lifetime_null reqs H), (startServer_null H). simpl.
  repeat split.
  cbv [getStripeConfig try_catch bind get ret loadConfig await setCONFIG throw
       initial CONFIG trace List.length record Config.truthy].
  rewrite Hdoc. simpl. eauto.
Qed.

(** When the configuration cannot be fetched at startup, the server starts
    all the same, on the fallback: the keys are those of the environment,
    or, for a variable that is unset or empty, the built-in test keys, and
    the catalog and the redirection are the built-in addresses. *)
Theorem startup_without_configuration (error : Error) :
  configDocument W 0 = Rejects error ->
  let s := snd (startServer W initial) in
  exited s = None /\
  CONFIG s = Config.object fallbackConfig /\
  stripe s = Some (orElse (STRIPE_SECRET_KEY W) "sk_test_fallback") /\
  stripePublishableKey s =
    Some (orElse (STRIPE_PUBLISHABLE_KEY W) "pk_test_fallback") /\
  eventsUrl s = defaultEventsUrl /\
  redirectUrl s = defaultRedirectUrl.
Proof.
  intros Hdoc.
  assert (H : configuration W <> Config.null).
  { unfold configuration. rewrite Hdoc. discriminate. }
  rewrite (startServer_run H).
  unfold listening, configuration. rewrite Hdoc. simpl.
  repeat split.
Qed.

(** No route lets an error escape.  Whatever the outbound calls of a request
    settle to, resolved or rejected, the handler of its route returns and
    sends the answer itself: it does not throw, and what it sends is not the
    500 [Internal server error] of the error middleware, which is left with
    the errors of the middleware that runs before the routes. *)
Theorem no_route_throws (req : Request) (s : State) :
  (forall error : Error, fst (handle W req s) <> Throws error) /\
  exists a : Answer,
    fst (handle W req s) = Returns a /\ a <> Sent internalServerError.
Proof.
  destruct (handle_run W req s) as (a & new & Hh & _).
  split; [ intros error; rewrite Hh; discriminate | ].
  exists a. split; [ now rewrite Hh | ].
  intros Ha. subst a.
  destruct req as [ | eventId pay | now | body | | eventId | | ];
    cbv [handle sent home success_page api_health not_found bind get ret] in Hh;
    try discriminate.
  - destruct (payment_page W eventId pay s) as [[r | e] s1] eqn:E;
      [ | discriminate ].
    injection Hh as Hr _. subst r. revert E.
    cbv [payment_page try_catch bind loadEvents get await ret].
    destruct (eventsDocument W (eventsUrl s) (List.length (trace s)));
      simpl; [ | discriminate ].
    destruct (findEvent _ eventId); simpl; [ | discriminate ].
    destruct (truthy pay); simpl; [ | discriminate ].
    destruct (Number.isNaN _ || _); simpl; [ discriminate | ].
    destruct (_ || _); discriminate.
  - destruct (incomplete_or_complete body)
      as [Hi | (token & eventId & name & email & phone & amount & Hc)].
    + rewrite (process_payment_missing W body s Hi) in Hh. discriminate.
    + rewrite (process_payment_present W body s _ _ _ _ _ _ Hc) in Hh.
      destruct (amount <? 50)%float; [ discriminate | ].
      destruct (eventsDocument W (eventsUrl s) (List.length (trace s)));
        [ | discriminate ].
      destruct (findEvent _ eventId); [ | discriminate ].
      cbv zeta in Hh. destruct (stripe s); [ | discriminate ].
      destruct (processor W _ _) as [charge | error]; [ | discriminate ].
      destruct (String.eqb (Charge.status charge) "succeeded"); discriminate.
  - revert Hh. cbv [api_events try_catch bind loadEvents get await ret].
    destruct (eventsDocument W (eventsUrl s) (List.length (trace s)));
      discriminate.
  - revert Hh. cbv [api_event try_catch bind loadEvents get await ret].
    destruct (eventsDocument W (eventsUrl s) (List.length (trace s)));
      simpl; [ | discriminate ].
    destruct (findEvent _ eventId); discriminate.
Qed.

(** No request changes what startup set: [CONFIG], the Stripe client, the
    publishable key and the exit status are after any requests what they
    were before, so the addresses derived from [CONFIG] are the same too;
    and the history of outbound calls only grows. *)
Theorem requests_keep_configuration (reqs : list Request) (s : State) :
  let s' := snd (serve W reqs s) in
  CONFIG s' = CONFIG s /\ stripe s' = stripe s /\
  stripePublishableKey s' = stripePublishableKey s /\
  exited s' = exited s /\
  eventsUrl s' = eventsUrl s /\ redirectUrl s' = redirectUrl s /\
  exists new : list Effect, trace s' = (new ++ trace s)%list.
Proof.
  destruct (serve_run W reqs s) as (answers & new & Hs & _ & _).
  rewrite Hs. simpl. repeat split. now exists new.
Qed.

Lemma permitted_not_config (s : State) (new : list Effect) :
  eventsUrl s <> configUrl ->
  Forall (permitted s) new ->
  filter isConfigFetch new = [].
Proof.
  intros Hurl H. induction H as [ | call new Hcall _ IH]; [ reflexivity | ].
  simpl. destruct Hcall as [-> | (p & -> & _)]; simpl.
  - apply String.eqb_neq in Hurl. now rewrite Hurl.
  - exact IH.
Qed.

(** Over the life of the process the configuration is fetched once, at
    startup, however many requests follow, provided the catalog's address in
    the configuration is not the address of the configuration itself. *)
Theorem lifetime_config_fetched_once (reqs : list Request) :
  eventsUrl (snd (startServer W initial)) <> configUrl ->
  configFetches (trace (snd (lifetime W reqs))) = 1%nat.
Proof.
  destruct configuration_null_dec as [H | H].
  - intros _. now rewrite (lifetime_null reqs H).
  - rewrite (startServer_run H), (lifetime_run reqs H). intros Hurl.
    destruct (serve_run W reqs (listening W)) as (answers & new & Hs & Hnew & _).
    rewrite Hs. unfold configFetches. simpl trace.
    rewrite filter_app, (permitted_not_config (listening W) new Hurl Hnew).
    reflexivity.
Qed.

(** Once the server has started on a configuration that is truthy, as an
    object is and the fallback, the health check says, whatever requests
    have been handled, that the configuration is [loaded]; it says so also
    when the fetch failed and the server runs on the fallback. *)
Theorem health_loaded_after_startup (reqs : list Request) :
  Config.truthy (configuration W) = true ->
  exists r : Response,
    fst (api_health W (snd (lifetime W reqs))) = Returns r /\
    statusCode r = 200%Z /\
    member "status" r = Some (JStr "healthy") /\
    member "config" r = Some (JStr "loaded").
Proof.
  intros Ht.
  assert (H : configuration W <> Config.null).
  { intros E. rewrite E in Ht. discriminate. }
  rewrite (lifetime_run reqs H).
  destruct (serve_run W reqs (listening W)) as (answers & new & Hs & _ & _).
  rewrite Hs. cbv [api_health bind get ret]. simpl snd.
  change (CONFIG (after new (listening W))) with (configuration W).
  rewrite Ht. eexists. split; [ reflexivity | ]. repeat split.
Qed.

(** Every charge the server submits in its life, for payment requests whose
    members are five strings and a number, is well formed: in US dollars,
    with a token and a receipt address that are not empty, and for an amount
    that is not [NaN], is not below 50 and, when finite, is a whole number of
    cents. *)
Theorem every_charge_well_formed (reqs : list Request) :
  Forall chargeWellFormed (trace (snd (lifetime W reqs))).
Proof.
  destruct configuration_null_dec as [H | H].
  - rewrite (lifetime_null reqs H). repeat constructor.
  - rewrite (lifetime_run reqs H).
    destruct (serve_run W reqs (listening W)) as (answers & new & Hs & Hnew & _).
    rewrite Hs. simpl. apply Forall_app. split.
    + eapply Forall_impl; [ | exact Hnew ].
      intros call [-> | (p & -> & Hp)]; [ exact I | exact Hp ].
    + repeat constructor.
Qed.

End Startup.

Section Catalog.

Variable W : World.

(** The catalog is not kept: each request for a page, for the list of
    events or for one event fetches it again, so that as many such requests
    as are handled, as many fetches are made, all of the same address. *)
Theorem catalog_fetched_per_request (reqs : list Request) (s : State) :
  Forall catalogRequest reqs ->
  trace (snd (serve W reqs s)) =
    (repeat (HttpsGet (eventsUrl s)) (List.length reqs) ++ trace s)%list.
Proof.
  revert s. induction reqs as [ | req rest IH]; intros s Hreqs.
  - reflexivity.
  - inversion Hreqs as [ | ? ? Hreq Hrest]; subst.
    assert (Hh : exists a, handle W req s = (Returns a, record (HttpsGet (eventsUrl s)) s)).
    { destruct req as [ | eventId pay | now | body | | eventId | | ];
        try contradiction; cbv [handle sent bind ret].
      - destruct (payment_page_run W eventId pay s) as [r ->]. eauto.
      - destruct (api_events_run W s) as [r ->]. eauto.
      - destruct (api_event_run W eventId s) as [r ->]. eauto. }
    destruct Hh as [a Hh]. simpl. rewrite Hh.
    specialize (IH (record (HttpsGet (eventsUrl s)) s) Hrest).
    destruct (serve W rest (record (HttpsGet (eventsUrl s)) s)) as [answers s2].
    simpl in IH |- *. rewrite IH. simpl.
    change (eventsUrl (record (HttpsGet (eventsUrl s)) s)) with (eventsUrl s).
    rewrite app_comm_cons, (repeat_cons (List.length rest) (HttpsGet (eventsUrl s))).
    now rewrite <- app_assoc.
Qed.

Lemma findEvent_first (before rest : list Event.t) (event : Event.t) :
  Forall (fun e => Event.eventId e <> Event.eventId event) before ->
  findEvent (before ++ event :: rest)%list (Event.eventId event) = Some event.
Proof.
  unfold findEvent. induction 1 as [ | e before Hne _ IH]; simpl.
  - now rewrite String.eqb_refl.
  - apply String.eqb_neq in Hne. now rewrite Hne.
Qed.

(** Of the events of the catalog with one identifier, the first is the one
    the server knows: the details returned for the identifier are its
    details, the page rendered without an override is its page, at its
    price, and a payment for the identifier is described by its name. *)
Theorem first_listed_event_wins (s : State) (before rest : list Event.t)
    (event : Event.t) :
  eventsDocument W (eventsUrl s) (List.length (trace s)) =
    Resolves (before ++ event :: rest)%list ->
  Forall (fun e => Event.eventId e <> Event.eventId event) before ->
  let s1 := record (HttpsGet (eventsUrl s)) s in
  let eventId := Event.eventId event in
  api_event W eventId s =
    (Returns (res_json 200 [("success", JBool true);
                            ("event", Event.toJSON event)]), s1) /\
  payment_page W eventId None s =
    (Returns (checkout s1 eventId event None (Event.cost event)), s1) /\
  forall (body : Req.t) (p : Params.t),
    Req.eventId body = Some eventId ->
    In (ChargesCreate p) (charges (trace (snd (process_payment W body s)))) ->
    ~ In (ChargesCreate p) (charges (trace s)) ->
    Params.description p = "Research Summit Registration: " ++ Event.eventName event.
Proof.
  intros Hdoc Hbefore s1 eventId.
  pose proof (findEvent_first before rest event Hbefore) as Hfind.
  fold eventId in Hfind.
  split; [ | split ].
  - cbv [api_event try_catch bind loadEvents get await ret].
    rewrite Hdoc. simpl. now rewrite Hfind.
  - cbv [payment_page try_catch bind loadEvents get await ret].
    rewrite Hdoc. simpl. now rewrite Hfind.
  - intros body p Hid Hin Hnew.
    destruct (incomplete_or_complete body)
      as [Hi | (token & eventId' & name & email & phone & amount & Hc)].
    { rewrite (process_payment_missing W body s Hi) in Hin. contradiction. }
    rewrite (process_payment_present W body s _ _ _ _ _ _ Hc), Hdoc in Hin.
    assert (eventId' = eventId) as ->.
    { destruct Hc as (_ & Hid' & _). apply present_some in Hid'.
      destruct Hid' as [Hid' _]. congruence. }
    rewrite Hfind in Hin.
    destruct (amount <? 50)%float; [ contradiction | ].
    cbv zeta in Hin. destruct (stripe s); [ | contradiction ].
    assert (Hp : ChargesCreate p =
                 ChargesCreate (chargeParams token eventId name email phone amount
                                  event (toISOString W (S (List.length (trace s)))))).
    { destruct (processor W _ _); simpl in Hin;
        (destruct Hin as [Hin | Hin]; [ now symmetry | contradiction ]). }
    injection Hp as ->. reflexivity.
Qed.

(** An identifier the catalog does not hold leads to no page and to no
    charge: the page route answers 404 whatever the override, valid or not,
    and the payment route answers without a call to the processor. *)
Theorem unknown_event_refused (s : State) (events : list Event.t)
    (eventId : string) :
  eventsDocument W (eventsUrl s) (List.length (trace s)) = Resolves events ->
  ~ In eventId (map Event.eventId events) ->
  let s1 := record (HttpsGet (eventsUrl s)) s in
  (forall pay : option string,
     payment_page W eventId pay s = (Returns (conferenceNotFound s1), s1)) /\
  (forall body : Req.t,
     Req.eventId body = Some eventId ->
     let r := process_payment W body s in
     charges (trace (snd r)) = charges (trace s) /\
     (fst r = Returns missingFields \/ fst r = Returns amountTooSmall \/
      fst r = Returns eventNotFound)).
Proof.
  intros Hdoc Habsent s1.
  pose proof (findEvent_absent events eventId Habsent) as Hfind.
  split.
  - intros pay. cbv [payment_page try_catch bind loadEvents get await ret].
    rewrite Hdoc. simpl. now rewrite Hfind.
  - intros body Hid r. subst r.
    destruct (incomplete_or_complete body)
      as [Hi | (token & eventId' & name & email & phone & amount & Hc)].
    { rewrite (process_payment_missing W body s Hi). auto. }
    rewrite (process_payment_present W body s _ _ _ _ _ _ Hc), Hdoc.
    assert (eventId' = eventId) as ->.
    { destruct Hc as (_ & Hid' & _). apply present_some in Hid'.
      destruct Hid' as [Hid' _]. congruence. }
    rewrite Hfind. destruct (amount <? 50)%float; auto.
Qed.

(** The JSON routes keep to one shape.  An answer says [success: true]
    exactly when its status is 200, and otherwise [success: false] with an
    [error] text; the list of events fails with 500 only, the details of an
    event with 404 or 500, and a payment with 400 or 404, never with 500. *)
Theorem json_routes_contract (s : State) :
  (exists r, fst (api_events W s) = Returns r /\ jsonContract [500%Z] r) /\
  (forall eventId, exists r,
     fst (api_event W eventId s) = Returns r /\ jsonContract [404%Z; 500%Z] r) /\
  (forall body, exists r,
     fst (process_payment W body s) = Returns r /\ jsonContract [400%Z; 404%Z] r).
Proof.
  assert (Hfail : forall (failures : list Z) (code : Z) (text : string),
             In code failures -> jsonContract failures (failure code text)).
  { intros failures code text Hin. right. split; [ exact Hin | ].
    split; [ reflexivity | ]. now exists text. }
  split; [ | split ].
  - cbv [api_events try_catch bind loadEvents get await ret].
    destruct (eventsDocument W (eventsUrl s) (List.length (trace s))); simpl.
    + eexists. split; [ reflexivity | ]. left. repeat split.
    + eexists. split; [ reflexivity | ]. apply Hfail. simpl. auto.
  - intros eventId. cbv [api_event try_catch bind loadEvents get await ret].
    destruct (eventsDocument W (eventsUrl s) (List.length (trace s))) as [events | e];
      simpl.
    + destruct (findEvent events eventId); simpl.
      * eexists. split; [ reflexivity | ]. left. repeat split.
      * eexists. split; [ reflexivity | ]. apply Hfail. simpl. auto.
    + eexists. split; [ reflexivity | ]. apply Hfail. simpl. auto.
  - intros body.
    destruct (incomplete_or_complete body)
      as [Hi | (token & eventId & name & email & phone & amount & Hc)].
    { rewrite (process_payment_missing W body s Hi).
      eexists. split; [ reflexivity | ]. apply Hfail. simpl. auto. }
    rewrite (process_payment_present W body s _ _ _ _ _ _ Hc).
    destruct (amount <? 50)%float.
    { eexists. split; [ reflexivity | ]. apply Hfail. simpl. auto. }
    destruct (eventsDocument W (eventsUrl s) (List.length (trace s)))
      as [events | error].
    2: { eexists. split; [ reflexivity | ]. apply Hfail. simpl. auto. }
    destruct (findEvent events eventId).
    2: { eexists. split; [ reflexivity | ]. apply Hfail. simpl. auto. }
    cbv zeta. destruct (stripe s).
    2: { eexists. split; [ reflexivity | ]. apply Hfail. simpl. auto. }
    destruct (processor W _ _) as [charge | error].
    2: { eexists. split; [ reflexivity | ]. apply Hfail. simpl. auto. }
    destruct (String.eqb (Charge.status charge) "succeeded").
    + eexists. split; [ reflexivity | ]. left. repeat split.
    + eexists. split; [ reflexivity | ]. apply Hfail. simpl. auto.
Qed.

End Catalog.

Section Overlap.

Variable W : World.

(** A call of [getStripeConfig] that is awaited is its two steps, the
    second at once after the first. *)
Lemma getStripeConfig_steps (s : State) :
  getStripeConfig W s =
  match getStripeConfig_begin W s with
  | (inl keys, s1) => (Returns keys, s1)
  | (inr settled, s1) => getStripeConfig_resume W settled s1
  end.
Proof.
  cbv [getStripeConfig getStripeConfig_begin getStripeConfig_resume stripeKeys
       bind get ret try_catch loadConfig await setCONFIG throw].
  destruct (CONFIG s) eqn:Hc; simpl.
  - destruct (configDocument W (List.length (trace s))) as [[ | | c] | e];
      reflexivity.
  - destruct (configDocument W (List.length (trace s))) as [[ | | c] | e];
      reflexivity.
  - now rewrite Hc.
Qed.

(** The cache of the configuration does not cover calls that overlap.  Of
    two calls begun with no configuration loaded, the second before the fetch
    of the first has settled, each fetches the document; and when both have
    resumed, [CONFIG] is what the call that resumed last assigned, whatever
    the other had fetched. *)
Theorem overlapping_calls_fetch_twice (s : State) :
  Config.truthy (CONFIG s) = false ->
  let first := getStripeConfig_begin W s in
  let second := getStripeConfig_begin W (snd first) in
  fst first = inr (configDocument W (List.length (trace s))) /\
  fst second = inr (configDocument W (S (List.length (trace s)))) /\
  configFetches (trace (snd second)) = S (S (configFetches (trace s))) /\
  forall earlier later : Settled Config.value,
    let s' := snd (getStripeConfig_resume W later
                     (snd (getStripeConfig_resume W earlier (snd second)))) in
    CONFIG s' = match later with
                | Resolves c => c
                | Rejects _ => Config.object fallbackConfig
                end /\
    trace s' = trace (snd second).
Proof.
  intros H. unfold getStripeConfig_begin. rewrite H. simpl. rewrite H. simpl.
  repeat split.
  - destruct later as [[ | | c] | e], earlier as [[ | | c'] | e']; reflexivity.
  - destruct later as [[ | | c] | e], earlier as [[ | | c'] | e']; reflexivity.
Qed.

End Overlap.

(** With no configuration loaded at first, two overlapping calls make two
    fetches. *)
Lemma overlapping_calls_fetch_twice_initial :
  let first := getStripeConfig_begin W0 initial in
  let second := getStripeConfig_begin W0 (snd first) in
  fst first = inr (configDocument W0 0) /\
  fst second = inr (configDocument W0 1) /\
  configFetches (trace (snd second)) = 2%nat /\
  forall earlier later : Settled Config.value,
    let s' := snd (getStripeConfig_resume W0 later
                     (snd (getStripeConfig_resume W0 earlier (snd second)))) in
    CONFIG s' = match later with
                | Resolves c => c
                | Rejects _ => Config.object fallbackConfig
                end /\
    trace s' = trace (snd second).
Proof.
  exact (overlapping_calls_fetch_twice W0 initial eq_refl).
Defined.

(** A page whose price times 100 is not at least 50, as for a price of
    zero, below 0.50, negative or not a number, cannot be paid: whatever is
    typed into its form, the request its script sends is refused for a
    missing member or a too small amount, before the catalog is read or the
    processor called. *)
Theorem unpayable_price (W1 W2 : World) (s1 s2 : State) (eventId : string)
    (pay : option string) (c : Checkout.t) (token fullName email phone : string) :
  response (payment_page W1 eventId pay s1) =
    Some {| statusCode := 200; body := Page c |} ->
  (50 <=? Checkout.eventCost c * 100)%float = false ->
  let r := process_payment W2 (submitForm c token fullName email phone) s2 in
  r = (Returns missingFields, s2) \/ r = (Returns amountTooSmall, s2).
Proof.
  intros Hpage Hlow r. subst r.
  destruct (payment_page_renders W1 s1 eventId pay c Hpage) as [Hamount _].
  rewrite <- Hamount in Hlow.
  destruct (incomplete_or_complete (submitForm c token fullName email phone))
    as [Hi | (token' & eventId' & name' & email' & phone' & amount & Hc)].
  - left. now apply process_payment_missing.
  - right. rewrite (process_payment_present W2 _ s2 _ _ _ _ _ _ Hc).
    destruct Hc as (_ & _ & _ & _ & _ & Ha).
    destruct (submitForm_amount c token fullName email phone amount Ha) as [-> _].
    apply presentNumber_some in Ha. destruct Ha as (_ & Hnan & _).
    now rewrite (not_leb_gtb 50 (Checkout.amount c) eq_refl Hnan Hlow).
Qed.

(** The page of the free event cannot be paid. *)
Lemma unpayable_price_free_event :
  let r := process_payment W0
             (submitForm RS2025OL_page "tok_visa" "Ada Lovelace" "ada@example.org"
                "+44 20 7946 0000")
             (listening W0) in
  r = (Returns missingFields, listening W0) \/
  r = (Returns amountTooSmall, listening W0).
Proof.
  exact (unpayable_price worldWithFreeEvent W0 (listening worldWithFreeEvent)
           (listening W0) "RS2025OL" None RS2025OL_page "tok_visa" "Ada Lovelace"
           "ada@example.org" "+44 20 7946 0000" eq_refl eq_refl).
Defined.

(** The charge for the request of 29900 for [RS2025AI]. *)
Lemma charge_describes_request_RS2025AI :
  exists events event amount,
    eventsDocument W0 (eventsUrl (started W0)) (List.length (trace (started W0))) =
      Resolves events /\
    findEvent events "RS2025AI" = Some event /\
    "AI Research Summit 2025" = Event.eventName event /\
    "Research Summit Registration: AI Research Summit 2025" =
      "Research Summit Registration: " ++ Event.eventName event /\
    Req.eventId (request (Some 29900%float)) = Some "RS2025AI" /\
    Req.token (request (Some 29900%float)) = Some "tok_visa" /\
    Req.name (request (Some 29900%float)) = Some "Ada Lovelace" /\
    Req.email (request (Some 29900%float)) = Some "ada@example.org" /\
    Req.phone (request (Some 29900%float)) = Some "+44 20 7946 0000" /\
    Req.amount (request (Some 29900%float)) = Some amount /\
    29900%float = Math.round amount /\
    "2025-01-01T00:00:00.000Z" = toISOString W0 (S (List.length (trace (started W0)))).
Proof.
  exact (charge_describes_request W0 (request (Some 29900%float)) (started W0)
           (chargeParams "tok_visa" "RS2025AI" "Ada Lovelace" "ada@example.org"
              "+44 20 7946 0000" 29900 RS2025AI "2025-01-01T00:00:00.000Z")
           eq_refl).
Defined.

(** With the catalog out of reach, the request of 29900 for [RS2025AI] is
    answered with the fixed message and no charge. *)
Lemma catalog_failure_no_charge_unreachable :
  let error := {| type := None;
                  message := "getaddrinfo ENOTFOUND raw.githubusercontent.com" |} in
  let r := process_payment worldWithoutCatalog (request (Some 29900%float))
             (listening worldWithoutCatalog) in
  charges (trace (snd r)) = charges (trace (listening worldWithoutCatalog)) /\
  (fst r = Returns missingFields \/ fst r = Returns amountTooSmall \/
   fst r = Returns (failure 400 (errorMessage error))) /\
  (type error = None ->
   errorMessage error = "Payment failed. Please try again.").
Proof.
  exact (catalog_failure_no_charge worldWithoutCatalog (request (Some 29900%float))
           (listening worldWithoutCatalog) _ eq_refl).
Defined.

(** In the world where the configuration cannot be fetched, the server
    listens with the test keys and the built-in addresses. *)
Lemma startup_without_configuration_W0 :
  let s := snd (startServer W0 initial) in
  exited s = None /\
  CONFIG s = Config.object fallbackConfig /\
  stripe s = Some (orElse (STRIPE_SECRET_KEY W0) "sk_test_fallback") /\
  stripePublishableKey s =
    Some (orElse (STRIPE_PUBLISHABLE_KEY W0) "pk_test_fallback") /\
  eventsUrl s = defaultEventsUrl /\
  redirectUrl s = defaultRedirectUrl.
Proof.
  exact (startup_without_configuration W0 _ eq_refl).
Defined.

(** In that world, a page, a payment and a health check later, the
    configuration has been fetched once. *)
Lemma lifetime_config_fetched_once_W0 :
  configFetches
    (trace (snd (lifetime W0 [GetPayment "RS2025AI" (Some "450");
                              PostProcessPayment (request (Some 45000%float));
                              GetApiHealth]))) = 1%nat.
Proof.
  apply (lifetime_config_fetched_once W0). vm_compute. discriminate.
Defined.

(** Two requests that read the catalog of [W0] make two fetches. *)
Lemma catalog_fetched_per_request_twice :
  trace (snd (serve W0 [GetApiEvents; GetApiEvent "RS2025AI"] (listening W0))) =
    (repeat (HttpsGet (eventsUrl (listening W0))) 2 ++ trace (listening W0))%list.
Proof.
  apply (catalog_fetched_per_request W0 [GetApiEvents; GetApiEvent "RS2025AI"]).
  repeat constructor.
Defined.

(** In the catalog that lists the free event before [RS2025AI], the latter
    is the first with its identifier. *)
Lemma first_listed_event_wins_RS2025AI :
  let s := listening worldWithFreeEvent in
  let s1 := record (HttpsGet (eventsUrl s)) s in
  api_event worldWithFreeEvent "RS2025AI" s =
    (Returns (res_json 200 [("success", JBool true);
                            ("event", Event.toJSON RS2025AI)]), s1) /\
  payment_page worldWithFreeEvent "RS2025AI" None s =
    (Returns (checkout s1 "RS2025AI" RS2025AI None (Event.cost RS2025AI)), s1) /\
  forall (body : Req.t) (p : Params.t),
    Req.eventId body = Some "RS2025AI" ->
    In (ChargesCreate p)
       (charges (trace (snd (process_payment worldWithFreeEvent body s)))) ->
    ~ In (ChargesCreate p) (charges (trace s)) ->
    Params.description p =
      "Research Summit Registration: " ++ Event.eventName RS2025AI.
Proof.
  apply (first_listed_event_wins worldWithFreeEvent (listening worldWithFreeEvent)
           [RS2025OL] [] RS2025AI).
  - reflexivity.
  - repeat constructor. discriminate.
Defined.

(** The identifier [RS2025XX] is not in the catalog of [W0]. *)
Lemma unknown_event_refused_RS2025XX :
  let s := listening W0 in
  let s1 := record (HttpsGet (eventsUrl s)) s in
  (forall pay : option string,
     payment_page W0 "RS2025XX" pay s = (Returns (conferenceNotFound s1), s1)) /\
  (forall body : Req.t,
     Req.eventId body = Some "RS2025XX" ->
     let r := process_payment W0 body s in
     charges (trace (snd r)) = charges (trace s) /\
     (fst r = Returns missingFields \/ fst r = Returns amountTooSmall \/
      fst r = Returns eventNotFound)).
Proof.
  apply (unknown_event_refused W0 (listening W0) [RS2025AI] "RS2025XX").
  - reflexivity.
  - simpl. intros [H | []]. discriminate.
Defined.

Section Amounts.

Variable W : World.

(** The payment route charges what the request says.  For a complete
    request of at least 50 for an event of the catalog, with the client
    there, one charge is submitted, for the amount of the request rounded:
    neither the price of the event nor the limits of the page play a part. *)
Theorem requested_amount_charged (body : Req.t) (s : State)
    (token eventId name email phone : string) (amount : float)
    (events : list Event.t) (event : Event.t) :
  complete body token eventId name email phone amount ->
  (amount <? 50)%float = false ->
  eventsDocument W (eventsUrl s) (List.length (trace s)) = Resolves events ->
  findEvent events eventId = Some event ->
  stripe s <> None ->
  exists p : Params.t,
    snd (process_payment W body s) =
      record (ChargesCreate p) (record (HttpsGet (eventsUrl s)) s) /\
    charges (trace (snd (process_payment W body s))) =
      ChargesCreate p :: charges (trace s) /\
    Params.amount p = Math.round amount /\
    Params.eventId (Params.metadata p) = eventId.
Proof.
  intros Hc Hamount Hdoc Hfind Hstripe.
  rewrite (process_payment_submits W body s token eventId name email phone amount
             events event Hc Hamount Hdoc Hfind Hstripe).
  eexists. destruct (processor W _ _); simpl; repeat split.
Qed.

Lemma process_payment_json (form : Req.t) (s : State) :
  exists (r : Response) (j : json),
    fst (process_payment W form s) = Returns r /\ body r = Json j.
Proof.
  destruct (incomplete_or_complete form)
    as [Hi | (token & eventId & name & email & phone & amount & Hc)].
  { rewrite (process_payment_missing W form s Hi). simpl. do 2 eexists. split; reflexivity. }
  rewrite (process_payment_present W form s _ _ _ _ _ _ Hc).
  destruct (amount <? 50)%float; [ simpl; do 2 eexists; split; reflexivity | ].
  destruct (eventsDocument W (eventsUrl s) (List.length (trace s)))
    as [events | error]; [ | simpl; do 2 eexists; split; reflexivity ].
  destruct (findEvent events eventId); [ | simpl; do 2 eexists; split; reflexivity ].
  cbv zeta. destruct (stripe s); [ | simpl; do 2 eexists; split; reflexivity ].
  destruct (processor W _ _) as [charge | error]; [ | simpl; do 2 eexists; split; reflexivity ].
  destruct (String.eqb (Charge.status charge) "succeeded"); simpl; do 2 eexists; split; reflexivity.
Qed.

(** Every link back to the main site is one address: the target of the
    redirection of [/], and the back link of the success page, of the page
    for an unknown path and of every page of the payment route, is the
    [redirectUrl] of the configuration when that is set and not empty, and
    the built-in address otherwise; it is never empty. *)
Theorem back_links_agree (req : Request) (s : State) (a : Answer) (url : string) :
  fst (handle W req s) = Returns a ->
  backLinkOf a = Some url ->
  url = redirectUrl s /\ url <> EmptyString /\
  (endpoints_redirectUrl (CONFIG s) = None -> url = defaultRedirectUrl).
Proof.
  intros Hh Hlink.
  assert (Hurl : url = redirectUrl s).
  { destruct req as [ | eventId pay | now | form | | eventId | | ];
      cbv [handle sent home success_page api_health not_found bind get ret] in Hh.
    - injection Hh as <-. simpl in Hlink. injection Hlink as <-. reflexivity.
    - revert Hh. cbv [payment_page try_catch bind loadEvents get await ret].
      destruct (eventsDocument W (eventsUrl s) (List.length (trace s)));
        simpl; [ | intros Hh; injection Hh as <-; simpl in Hlink; injection Hlink as <-; reflexivity ].
      destruct (findEvent _ eventId); simpl;
        [ | intros Hh; injection Hh as <-; simpl in Hlink; injection Hlink as <-; reflexivity ].
      destruct (truthy pay); simpl;
        [ | intros Hh; injection Hh as <-; simpl in Hlink; injection Hlink as <-; reflexivity ].
      destruct (Number.isNaN _ || _); simpl;
        [ intros Hh; injection Hh as <-; simpl in Hlink; injection Hlink as <-; reflexivity | ].
      destruct (_ || _); intros Hh; injection Hh as <-; simpl in Hlink; injection Hlink as <-; reflexivity.
    - injection Hh as <-. simpl in Hlink. injection Hlink as <-. reflexivity.
    - destruct (process_payment_json form s) as (r & j & Hr & Hj).
      destruct (process_payment W form s) as [o s1]. simpl in Hr, Hh.
      subst o. injection Hh as <-.
      destruct r as [code b]. simpl in Hj. subst b. discriminate.
    - revert Hh. cbv [api_events try_catch bind loadEvents get await ret].
      destruct (eventsDocument W (eventsUrl s) (List.length (trace s)));
        simpl; intros Hh; injection Hh as <-; discriminate.
    - revert Hh. cbv [api_event try_catch bind loadEvents get await ret].
      destruct (eventsDocument W (eventsUrl s) (List.length (trace s)));
        simpl; [ | intros Hh; injection Hh as <-; discriminate ].
      destruct (findEvent _ eventId); simpl; intros Hh; injection Hh as <-;
        discriminate.
    - injection Hh as <-. discriminate.
    - injection Hh as <-. simpl in Hlink. injection Hlink as <-. reflexivity. }
  subst url. split; [ reflexivity | split ].
  - apply orElse_nonempty. discriminate.
  - unfold redirectUrl. now intros ->.
Qed.

End Amounts.

(** A request of 50 for [RS2025AI], whose price is 299 dollars, leads to a
    charge of 50 cents. *)
Lemma requested_amount_charged_fifty :
  exists p : Params.t,
    snd (process_payment W0 (request (Some 50%float)) (started W0)) =
      record (ChargesCreate p)
        (record (HttpsGet (eventsUrl (started W0))) (started W0)) /\
    charges (trace (snd (process_payment W0 (request (Some 50%float)) (started W0)))) =
      ChargesCreate p :: charges (trace (started W0)) /\
    Params.amount p = Math.round 50 /\
    Params.eventId (Params.metadata p) = "RS2025AI".
Proof.
  apply (requested_amount_charged W0 (request (Some 50%float)) (started W0)
           "tok_visa" "RS2025AI" "Ada Lovelace" "ada@example.org" "+44 20 7946 0000"
           50 [RS2025AI] RS2025AI).
  - repeat split.
  - reflexivity.
  - reflexivity.
  - reflexivity.
  - discriminate.
Defined.

(** On the fallback, [/] redirects to the built-in address. *)
Lemma back_links_agree_home :
  defaultRedirectUrl = redirectUrl (listening W0) /\
  defaultRedirectUrl <> EmptyString /\
  (endpoints_redirectUrl (CONFIG (listening W0)) = None ->
   defaultRedirectUrl = defaultRedirectUrl).
Proof.
  exact (back_links_agree W0 GetHome (listening W0) (Redirect defaultRedirectUrl)
           defaultRedirectUrl eq_refl eq_refl).
Defined.

(** With the configuration document [0], which is falsy but not [null], the
    server starts, on the built-in test keys. *)
Lemma startup_never_exits_falsy :
  let s := snd (startServer worldWithFalsyConfig initial) in
  fst (startServer worldWithFalsyConfig initial) = Returns tt /\
  exited s = None /\
  trace s = [HttpsGet configUrl] /\
  CONFIG s = configuration worldWithFalsyConfig /\
  CONFIG s <> Config.null /\
  exists secretKey publishableKey : string,
    stripe s = Some secretKey /\ secretKey <> EmptyString /\
    stripePublishableKey s = Some publishableKey /\
    publishableKey <> EmptyString.
Proof.
  apply (startup_never_exits worldWithFalsyConfig). discriminate.
Defined.

(** With the configuration document [null], the process exits before any of
    three requests is served. *)
Lemma null_configuration_stops_startup_three :
  let s := snd (startServer worldWithNullConfig initial) in
  (exists error : Error,
     fst (getStripeConfig worldWithNullConfig initial) = Throws error) /\
  exited s = Some 1%Z /\
  stripe s = None /\
  trace s = [HttpsGet configUrl] /\
  lifetime worldWithNullConfig
    [GetApiHealth; GetPayment "RS2025AI" None; GetApiEvents] = ([], s).
Proof.
  exact (null_configuration_stops_startup worldWithNullConfig
           [GetApiHealth; GetPayment "RS2025AI" None; GetApiEvents] eq_refl).
Defined.

(** On the fallback, after a page has been served, the health check says
    [loaded]. *)
Lemma health_loaded_after_startup_fallback :
  exists r : Response,
    fst (api_health W0 (snd (lifetime W0 [GetPayment "RS2025AI" None]))) =
      Returns r /\
    statusCode r = 200%Z /\
    member "status" r = Some (JStr "healthy") /\
    member "config" r = Some (JStr "loaded").
Proof.
  exact (health_loaded_after_startup W0 [GetPayment "RS2025AI" None] eq_refl).
Defined.
